(** * hsd-ens-resolution: the recursive server of lib/recursive.js

    A shallow embedding of [ENSCache], [toKey] and [RecursiveServer]
    (lib/recursive.js), with the properties of the query router, the
    response cache and the response synthesizer proved over it, followed by
    the constructor with its options, the lifecycle methods and the logging
    helper.

    JavaScript strings are modelled as [string] (8-bit characters: DNS
    names in presentation format are ASCII), numbers as [Z] or [N],
    arrays as lists.  The collaborators that live outside the repository
    (the bns codec, the delegation resolver [this.hns], the registry
    client [this.ethClient], [hsig]) are gathered in the class
    [Collaborators]; the definitions and theorems hold for every instance
    of it. *)

From Stdlib Require Import ZArith NArith List Bool Ascii String Lia.
From Stdlib Require Import Decimal DecimalString DecimalN.
Import ListNotations.

#[local] Open Scope string_scope.
#[local] Open Scope Z_scope.

(** ** JavaScript string operations used by the source *)

Module Js.

(** [ch.toLowerCase()] on one 8-bit character. *)
Definition lower_char (c : ascii) : ascii :=
  let n := nat_of_ascii c in
  if (Nat.leb 65 n && Nat.leb n 90)%bool then ascii_of_nat (n + 32) else c.

(** [s.toLowerCase()]. *)
Fixpoint toLowerCase (s : string) : string :=
  match s with
  | EmptyString => EmptyString
  | String c r => String (lower_char c) (toLowerCase r)
  end.

(** [n.toString(10)] for a non-negative integer. *)
Definition toString10 (n : N) : string :=
  NilEmpty.string_of_uint (N.to_uint n).

(** [s.substring(off)]: the suffix of [s] from offset [off]. *)
Fixpoint substring_from (off : nat) (s : string) : string :=
  match off, s with
  | O, _ => s
  | S _, EmptyString => EmptyString
  | S k, String _ r => substring_from k r
  end.

(** [s.slice(0, s.length - 1)]: everything but the last character
    (the empty string stays empty). *)
Definition slice_but_last (s : string) : string :=
  substring 0 (String.length s - 1) s.

(** What a registry lookup may resolve to: an address string, [null] or
    [undefined]. *)
Inductive value : Type :=
| Str (s : string)
| Null
| Undefined.

(** [`${v}`]: the string a template literal renders for [v]. *)
Definition template (v : value) : string :=
  match v with
  | Str s => s
  | Null => "null"
  | Undefined => "undefined"
  end.

(** [!v]. *)
Definition falsy (v : value) : bool :=
  match v with
  | Str s => (s =? "")%string
  | Null | Undefined => true
  end.

End Js.

(** ** toKey (lib/recursive.js, lines 296-303) *)

Definition toKey (name : string) (type : N) : string :=
  let key := "" in
  let key := key ++ Js.toLowerCase name in
  let key := key ++ ";" in
  let key := key ++ Js.toString10 type in
  key.

(** Whether a string is free of the key separator [;]. *)
Fixpoint no_separator (s : string) : bool :=
  match s with
  | EmptyString => true
  | String c r => negb (Ascii.eqb c ";") && no_separator r
  end.

(** ** The bounded store behind the cache *)

(** Modelled from the spec: the [blru] package (the [LRU] class that
    [ENSCache] wraps) is missing from the sources.  The spec describes a
    bounded collection of capacity N whose eviction policy is
    least-recently-used when the capacity is exceeded, where [set] inserts or
    overwrites and the store tracks accesses itself.  The entries are kept
    in recency order: the head of [items] is the least recently used one,
    the last element the most recently used one. *)
Module LRU.
Section Store.
Context {V : Type}.

Record t : Type := mk { capacity : nat; items : list (string * V) }.

Definition create (capacity : nat) : t := mk capacity [].

Definition others (key : string) (l : list (string * V)) :=
  filter (fun kv => negb (fst kv =? key)%string) l.

Fixpoint peek_items (key : string) (l : list (string * V)) : option V :=
  match l with
  | [] => None
  | (k, v) :: r => if (k =? key)%string then Some v else peek_items key r
  end.

(** Reads an entry without touching the recency order (used to state
    properties only). *)
Definition peek (key : string) (c : t) : option V := peek_items key (items c).

Definition size (c : t) : nat := List.length (items c).

Definition has (key : string) (c : t) : bool :=
  match peek key c with Some _ => true | None => false end.

(** Modelled from the spec: blru's compaction is missing from the sources;
    it evicts from the least recently used end while over capacity. *)
Definition compact (c : t) : t :=
  mk (capacity c) (skipn (size c - capacity c) (items c)).

(** Modelled from the spec: blru's [set] is missing from the sources; it
    inserts or overwrites, makes the entry the most recently used one and
    evicts when the capacity is exceeded. *)
Definition set (key : string) (v : V) (c : t) : t :=
  compact (mk (capacity c) (others key (items c) ++ [(key, v)])).

(** Modelled from the spec: blru's [get] is missing from the sources; a
    hit makes the entry the most recently used one (the store's own access
    tracking), a miss gives [None] (the source's [null]). *)
Definition get (key : string) (c : t) : option V * t :=
  match peek key c with
  | None => (None, c)
  | Some v => (Some v, mk (capacity c) (others key (items c) ++ [(key, v)]))
  end.

(** Every value stored under [key] satisfies [P] (used to state
    properties only). *)
Definition entries_satisfy (P : V -> Prop) (key : string) (c : t) : Prop :=
  forall v, In (key, v) (items c) -> P v.

End Store.
Arguments t : clear implicits.
End LRU.

(** ** Wire data (the parts of bns's [wire] the source reads or writes) *)

Module Question.
Record t : Type := mk { name : string; type : N; class : N }.
(** [qs.clone()]: a copy with the same content. *)
Definition clone (qs : t) : t := mk (name qs) (type qs) (class qs).
End Question.

(** Record data: a TXT record carries a list of strings; the data of any
    other record (only seen in delegated answers) is kept as its bytes. *)
Inductive rdata : Type :=
| TXTRecord (txt : list string)
| OtherRecord (bytes : string).

Module WireRecord.
Record t : Type := mk { name : string; type : N; ttl : Z; data : rdata }.
End WireRecord.

Module Message.
Record t : Type := mk {
  id : Z;
  opcode : N;
  ad : bool;
  question : list Question.t;
  answer : list WireRecord.t
}.
End Message.

(** Constants of bns's [wire] tables (RFC 1035 values). *)
Definition types_TXT : N := 16.
Definition opcodes_QUERY : N := 0.

(** ** Results of fallible code *)

Inductive exn : Type :=
| TypeError                 (* property access on [undefined] *)
| Fault (reason : string).  (* an error raised by a collaborator *)

Inductive outcome (A : Type) : Type :=
| Ret (a : A)
| Throw (e : exn).
Arguments Ret {A} a.
Arguments Throw {A} e.

(** ** External collaborators

    Everything the server consumes from outside the repository.  The two
    awaited calls take the clock at the call and give back the clock at
    resumption.  Both directions of the codec may throw: [msg.compress()]
    on a message that does not fit the wire format (a TXT string of more
    than 255 bytes, for one), [Message.decode] on malformed bytes.
    [hsig.sign] is the function of the message and the key that the source
    calls it as. *)
Class Collaborators : Type := {
  Buffer : Type;
  Message_compress : Message.t -> outcome Buffer;
  Message_decode : Buffer -> outcome Message.t;
  hns_resolve : Z -> Question.t -> outcome Message.t * Z;
  ethClient_resolveENS : Z -> string -> outcome Js.value * Z;
  hsig_sign : Buffer -> Buffer -> Buffer
}.

(** Modelled from the spec: [util.split] and [util.from] belong to the bns
    package, which is missing from the sources.  The spec says the router
    splits the name into dot-separated labels and extracts the final
    (rightmost, top-level) label; the source compares that label with
    ['eth.'], so the label keeps the root dot that ends the name.  [split]
    gives the offsets at which the labels start, [from] the part of the name
    from the label selected by [index] (negative indices count from the
    end). *)
Module util.

Fixpoint label_starts (off : nat) (s : string) : list nat :=
  match s with
  | EmptyString => []
  | String c r =>
      match r with
      | EmptyString => []
      | String _ _ =>
          if Ascii.eqb c "." then S off :: label_starts (S off) r
          else label_starts (S off) r
      end
  end.

(** Modelled from the spec: bns's [util.split] is missing from the sources;
    the offsets of the dot-separated labels of [name] (none for the root). *)
Definition split (name : string) : list nat :=
  if ((name =? "") || (name =? "."))%string then []
  else O :: label_starts O name.

(** Modelled from the spec: bns's [util.from] is missing from the sources;
    the name from the label at [index] on, so [index = -1] gives the
    rightmost label with the root dot that ends the name. *)
Definition from (name : string) (labels : list nat) (index : Z) : string :=
  let len := Z.of_nat (List.length labels) in
  let index := if index <? 0 then index + len else index in
  if (index <? 0) || (len <=? index) then ""
  else Js.substring_from (nth (Z.to_nat index) labels O) name.

End util.

Section Server.
Context {deps : Collaborators}.

(** ** ENSCache (lib/recursive.js, lines 42-71) *)

Record item : Type := { time : Z; raw : Buffer }.

Record ENSCache : Type := { cache : LRU.t item }.

Definition ENSCache_new (size : nat) : ENSCache :=
  {| cache := LRU.create size |}.

(** The freshness window, [6 * 60 * 60 * 1000] milliseconds. *)
Definition freshness_window : Z := 6 * 60 * 60 * 1000.

(** [set(name, type, msg)], where [now] is what [Date.now()] returns.
    When [msg.compress()] throws (line 49), nothing is stored and the error
    leaves [set]. *)
Definition ENSCache_set (now : Z) (name : string) (type : N)
    (msg : Message.t) (this : ENSCache) : outcome ENSCache :=
  let key := toKey name type in
  match Message_compress msg with
  | Throw e => Throw e
  | Ret raw =>
      Ret {| cache := LRU.set key {| time := now; raw := raw |} (cache this) |}
  end.

(** [get(name, type)], where [now] is what [Date.now()] returns; [None]
    is the source's [null]. *)
Definition ENSCache_get (now : Z) (name : string) (type : N)
    (this : ENSCache) : outcome (option Message.t) * ENSCache :=
  let key := toKey name type in
  let (item, store) := LRU.get key (cache this) in
  let this := {| cache := store |} in
  match item with
  | None => (Ret None, this)
  | Some item =>
      if now >? time item + freshness_window then (Ret None, this)
      else
        match Message_decode (raw item) with
        | Ret m => (Ret (Some m), this)
        | Throw e => (Throw e, this)
        end
  end.

(** ** RecursiveServer (lib/recursive.js, lines 78-290) *)

Record RecursiveServer : Type := {
  key : Buffer;
  host : string;
  port : Z;
  stubHost : string;
  stubPort : Z;
  rs_cache : ENSCache;
  ethurl : option string
}.

(** The constructor without options; [generated] is the key
    [secp256k1.privateKeyGenerate()] returns. *)
Definition RecursiveServer_new (generated : Buffer) : RecursiveServer :=
  {| key := generated;
     host := "127.0.0.1";
     port := 5301;
     stubHost := "127.0.0.1";
     stubPort := 5300;
     rs_cache := ENSCache_new 500;
     ethurl := None |}.

Definition with_cache (this : RecursiveServer) (c : ENSCache) :=
  {| key := key this; host := host this; port := port this;
     stubHost := stubHost this; stubPort := stubPort this;
     rs_cache := c; ethurl := ethurl this |}.

Definition signSize (this : RecursiveServer) : Z := 94.


(** *** The effects of [resolve]

    [resolve] reads and writes [this.cache], reads the clock, awaits the
    two collaborators and may throw.  A computation takes the world
    (server object and clock) and gives an outcome, the world afterwards
    and the collaborator calls it made, in order. *)
Record World : Type := { this : RecursiveServer; clock : Z }.

Inductive call : Type :=
| CallResolveENS (name : string)
| CallHnsResolve (qs : Question.t).

Record result (A : Type) : Type :=
  { res : outcome A; world : World; calls : list call }.
Arguments res {A} _.
Arguments world {A} _.
Arguments calls {A} _.

Definition M (A : Type) : Type := World -> result A.

Definition ret {A} (a : A) : M A :=
  fun w => {| res := Ret a; world := w; calls := [] |}.

Definition throw {A} (e : exn) : M A :=
  fun w => {| res := Throw e; world := w; calls := [] |}.

Definition bind {A B} (m : M A) (k : A -> M B) : M B :=
  fun w =>
    let r := m w in
    match res r with
    | Throw e => {| res := Throw e; world := world r; calls := calls r |}
    | Ret a =>
        let r' := k a (world r) in
        {| res := res r'; world := world r'; calls := calls r ++ calls r' |}
    end.

(** [this.cache.get(name, type)] *)
Definition cache_get (name : string) (type : N) : M (option Message.t) :=
  fun w =>
    let (o, c) := ENSCache_get (clock w) name type (rs_cache (this w)) in
    {| res := o;
       world := {| this := with_cache (this w) c; clock := clock w |};
       calls := [] |}.

(** [this.cache.set(name, type, msg)]; an error thrown inside [set]
    leaves the cache as it was. *)
Definition cache_set (name : string) (type : N) (msg : Message.t) : M unit :=
  fun w =>
    match ENSCache_set (clock w) name type msg (rs_cache (this w)) with
    | Ret c =>
        {| res := Ret tt;
           world := {| this := with_cache (this w) c; clock := clock w |};
           calls := [] |}
    | Throw e => {| res := Throw e; world := w; calls := [] |}
    end.

(** [await this.ethClient.resolveENS(name)] *)
Definition await_resolveENS (name : string) : M Js.value :=
  fun w =>
    let (o, t) := ethClient_resolveENS (clock w) name in
    {| res := o;
       world := {| this := this w; clock := t |};
       calls := [CallResolveENS name] |}.

(** [this.hns.resolve(qs)], awaited by the caller of [resolve] *)
Definition await_hns_resolve (qs : Question.t) : M Message.t :=
  fun w =>
    let (o, t) := hns_resolve (clock w) qs in
    {| res := o;
       world := {| this := this w; clock := t |};
       calls := [CallHnsResolve qs] |}.

End Server.

Arguments res {deps A} _.
Arguments world {deps A} _.
Arguments calls {deps A} _.

Declare Scope js_scope.
Delimit Scope js_scope with js.
Notation "'let*' x ':=' m 'in' k" := (bind m (fun x => k))
  (at level 10, x name, m at level 100, k at level 200) : js_scope.
Notation "m ';;' k" := (bind m (fun _ => k))
  (at level 100, k at level 200, right associativity) : js_scope.

Module Request.
Record t : Type := mk { id : Z; question : list Question.t }.
End Request.

Section Resolve.
Context {deps : Collaborators}.
#[local] Open Scope js_scope.

(** The TXT record data in OpenAlias format (lines 256-259). *)
Definition openalias (res : Js.value) (name : string) : string :=
  ""
  ++ "oa1:eth "
  ++ ("recipient_address=" ++ Js.template res ++ "; ")
  ++ ("recipient_name=" ++ name ++ ";").

(** Lines 261-277: the message built around [data]. *)
Definition synthesize (qs : Question.t) (data : string) : Message.t :=
  let rd := TXTRecord ([] ++ [data]) in
  let rr := {| WireRecord.name := Question.name qs;
               WireRecord.type := types_TXT;
               WireRecord.ttl := 86000;
               WireRecord.data := rd |} in
  {| Message.id := 0;
     Message.opcode := opcodes_QUERY;
     Message.ad := false;
     Message.question := [Question.clone qs];
     Message.answer := [] ++ [rr] |}.

(** [resolve(req, rinfo)] (lines 231-285); [rinfo] is never read. *)
Definition resolve (req : Request.t) : M Message.t :=
  match Request.question req with
  | [] => throw TypeError  (* [qs] is [undefined]: [qs.name] throws *)
  | qs :: _ =>
      let labels := util.split (Question.name qs) in
      let label := util.from (Question.name qs) labels (-1) in
      if (label =? "eth.")%string then
        let* cache := cache_get (Question.name qs) types_TXT in
        match cache with
        | Some cache => ret cache
        | None =>
            let name := Js.slice_but_last (Question.name qs) in
            let* res := await_resolveENS name in
            (* lines 250-253: the body of [if (!res)] is empty *)
            let data := openalias res name in
            let msg := synthesize qs data in
            (* line 279: an error thrown by [set] leaves [resolve]
               before [msg] is returned *)
            cache_set (Question.name qs) types_TXT msg;;
            ret msg
        end
      else await_hns_resolve qs
  end.

(** [lookup(name, type)] (lines 287-289) is not modelled: the delegation
    resolver's [lookup] plays no part in the properties below. *)

End Resolve.

(** ** Sequences of cache operations *)

Section CacheOps.
Context {deps : Collaborators}.

(** One call on the cache, with the clock reading it sees. *)
Inductive cache_op : Type :=
| OpSet (now : Z) (name : string) (type : N) (msg : Message.t)
| OpGet (now : Z) (name : string) (type : N).

(** The cache after one call; a [set] that throws leaves it as it was. *)
Definition run_op (c : ENSCache) (op : cache_op) : ENSCache :=
  match op with
  | OpSet now name type msg =>
      match ENSCache_set now name type msg c with
      | Ret c' => c'
      | Throw _ => c
      end
  | OpGet now name type => snd (ENSCache_get now name type c)
  end.

Definition run_ops (ops : list cache_op) (c : ENSCache) : ENSCache :=
  fold_left run_op ops c.

(** Whether [op] is a [set] under the key [k]. *)
Definition sets_key (k : string) (op : cache_op) : bool :=
  match op with
  | OpSet _ name type _ => (toKey name type =? k)%string
  | OpGet _ _ _ => false
  end.

Definition cardinality (c : ENSCache) : nat := LRU.size (cache c).

(** The codec contract the spec assumes of the wire-format library:
    decoding what compressing a message gave gives the message back. *)
Definition codec_roundtrip : Prop :=
  forall m raw, Message_compress m = Ret raw -> Message_decode raw = Ret m.

Definition is_hns_call (c : call) : bool :=
  match c with CallHnsResolve _ => true | CallResolveENS _ => false end.

Definition is_ens_call (c : call) : bool :=
  match c with CallResolveENS _ => true | CallHnsResolve _ => false end.

(** The top-level label [resolve] routes on (lines 234-235). *)
Definition top_label (name : string) : string :=
  util.from name (util.split name) (-1).

End CacheOps.

(** ** A concrete set of collaborators, for running the model

    Buffers hold either a message (what the codec produced) or plain
    bytes; the codec refuses a TXT string of more than 255 bytes, which the
    one-byte length of the wire format cannot carry; the registry knows
    [alice.eth], has an address for every name that starts with [wallet],
    answers [null] for every name that starts with [ghost] and fails
    otherwise, taking 5 ms; the delegation resolver answers every question
    with an empty response, taking 7 ms. *)
Module Fixture.

Inductive buffer : Type :=
| Encoded (m : Message.t)
| Bytes (b : string).

(** Whether the strings of a record fit the wire format. *)
Definition fits (rr : WireRecord.t) : bool :=
  match WireRecord.data rr with
  | TXTRecord txt => forallb (fun s => Nat.leb (String.length s) 255) txt
  | OtherRecord _ => true
  end.

Definition compress (m : Message.t) : outcome buffer :=
  if forallb fits (Message.answer m) then Ret (Encoded m)
  else Throw (Fault "EncodingError").

Definition decode (b : buffer) : outcome Message.t :=
  match b with
  | Encoded m => Ret m
  | Bytes _ => Throw (Fault "decode")
  end.

Definition delegated_answer (qs : Question.t) : Message.t :=
  {| Message.id := 7; Message.opcode := opcodes_QUERY; Message.ad := true;
     Message.question := [qs]; Message.answer := [] |}.

Definition hns (now : Z) (qs : Question.t) : outcome Message.t * Z :=
  (Ret (delegated_answer qs), now + 7).

Definition registry (now : Z) (name : string) : outcome Js.value * Z :=
  if (name =? "alice.eth")%string then (Ret (Js.Str "0xABCD"), now + 5)
  else if String.prefix "wallet" name
  then (Ret (Js.Str "0x52908400098527886E0F7030069857D2E4169EE7"), now + 5)
  else if String.prefix "ghost" name then (Ret Js.Null, now + 5)
  else (Throw (Fault "rpc"), now + 5).

Definition tag (msg key : buffer) : buffer :=
  match msg, key with
  | Bytes m, Bytes k => Bytes (m ++ k)
  | _, _ => Bytes ""
  end.

#[export] Instance deps : Collaborators :=
  {| Buffer := buffer;
     Message_compress := compress;
     Message_decode := decode;
     hns_resolve := hns;
     ethClient_resolveENS := registry;
     hsig_sign := tag |}.

Definition server : RecursiveServer := RecursiveServer_new (Bytes "k").

Definition world0 : World := {| this := server; clock := 1000 |}.

Definition ask (name : string) : Request.t :=
  Request.mk 4660 [Question.mk name types_TXT 1].

(** A cache filled to its capacity of 500 by 500 [set]s under distinct
    names [n0.eth.] ... [n499.eth.], one per millisecond. *)
Definition nth_name (i : nat) : string :=
  "n" ++ Js.toString10 (N.of_nat i) ++ ".eth.".

Definition fill (i : nat) : cache_op :=
  OpSet (Z.of_nat i) (nth_name i) types_TXT (delegated_answer (Question.mk (nth_name i) types_TXT 1)).

Definition full_cache : ENSCache :=
  run_ops (map fill (seq 0 500)) (ENSCache_new 500).

(** [n] times the letter [c]. *)
Fixpoint letters (c : ascii) (n : nat) : string :=
  match n with
  | O => EmptyString
  | S k => String c (letters c k)
  end.

(** A name of 187 characters in four labels (60, 60, 60 and [eth]), for
    which the registry has an address. *)
Definition long_wallet : string :=
  "wallet" ++ letters "a" 54 ++ "." ++ letters "b" 60 ++ "."
  ++ letters "c" 60 ++ ".eth.".

(** A name of 228 characters in five labels (60, 60, 60, 40 and [eth]),
    for which the registry has no address. *)
Definition long_ghost : string :=
  "ghost" ++ letters "a" 55 ++ "." ++ letters "b" 60 ++ "."
  ++ letters "c" 60 ++ "." ++ letters "d" 40 ++ ".eth.".


End Fixture.

(** ** Option values

    The constructor's [options] object holds dynamically typed values; the
    source tests them with [!= null], [typeof], [Buffer.isBuffer] and
    bit masks before it stores them. *)
Module Dyn.
Section Values.
Context {deps : Collaborators}.

Inductive t : Type :=
| Undefined
| Null
| Bool (b : bool)
| Num (z : Z)          (* a number with an integer value *)
| Fraction             (* any other number: a fraction, NaN, an infinity *)
| Str (s : string)
| Buf (b : Buffer)
| Obj (handle : nat).  (* any other object *)

(** [v != null] *)
Definition present (v : t) : bool :=
  match v with
  | Undefined | Null => false
  | _ => true
  end.

(** [typeof v] *)
Definition typeof (v : t) : string :=
  match v with
  | Undefined => "undefined"
  | Null | Buf _ | Obj _ => "object"
  | Bool _ => "boolean"
  | Num _ | Fraction => "number"
  | Str _ => "string"
  end.

(** [Buffer.isBuffer(v)] *)
Definition isBuffer (v : t) : bool :=
  match v with
  | Buf _ => true
  | _ => false
  end.

(** ToInt32 of an integer: its value modulo 2^32, read as a signed
    32-bit integer. *)
Definition to_int32 (z : Z) : Z :=
  let m := z mod 2 ^ 32 in
  if 2 ^ 31 <=? m then m - 2 ^ 32 else m.

(** [(v & 0xffff) === v].  The mask gives a number with an integer value,
    and strict equality holds with nothing but an equal number. *)
Definition is_masked_ffff (v : t) : bool :=
  match v with
  | Num z => Z.land (to_int32 z) 65535 =? z
  | _ => false
  end.

(** [v !== 0] *)
Definition is_not_zero (v : t) : bool :=
  match v with
  | Num z => negb (z =? 0)
  | _ => true
  end.

End Values.
End Dyn.

Module Options.
Section Fields.
Context {deps : Collaborators}.

(** The recognized fields of [options]; a field that is not given reads
    as [undefined]. *)
Record t : Type := mk {
  logger : Dyn.t;
  key : Dyn.t;
  host : Dyn.t;
  port : Dyn.t;
  stubHost : Dyn.t;
  stubPort : Dyn.t;
  noUnbound : Dyn.t;
  ethurl : Dyn.t
}.

(** The object [{}]. *)
Definition empty : t :=
  mk Dyn.Undefined Dyn.Undefined Dyn.Undefined Dyn.Undefined
     Dyn.Undefined Dyn.Undefined Dyn.Undefined Dyn.Undefined.

End Fields.
End Options.

(** The class [this.hns] is an instance of (both are built with the same
    settings). *)
Inductive resolver : Type :=
| UnboundResolver
| RecursiveResolver.

(** ** Further collaborators

    What the constructor, the lifecycle methods and the logging helper
    consume from outside the repository: the logger (blgr), [Buffer]'s
    length, [IP.normalize] (binet), the base class [DNSServer] (its
    [parseOptions], [open] and [close], which act on the transport and may
    throw), the delegation resolver's [setStub], [open] and [close], and the
    text [msg.toString()] renders. *)
Class Runtime {deps : Collaborators} : Type := {
  Logger : Type;
  Logger_global : Logger;
  Logger_context : nat -> string -> outcome Logger;
  Logger_level : Logger -> Z;
  Buffer_length : Buffer -> Z;
  IP_normalize : string -> outcome string;
  DNSServer_parseOptions : Options.t -> outcome unit;
  DNSServer_open : Z -> string -> outcome unit;
  DNSServer_close : outcome unit;
  hns_setStub : resolver -> string -> Z -> outcome unit;
  hns_open : resolver -> outcome unit;
  hns_close : resolver -> outcome unit;
  Message_toString : Message.t -> string
}.

(** Sequencing of fallible steps. *)
Definition and_then {A B : Type} (o : outcome A) (k : A -> outcome B)
    : outcome B :=
  match o with
  | Ret a => k a
  | Throw e => Throw e
  end.

Declare Scope outcome_scope.
Delimit Scope outcome_scope with outcome.
Notation "'let*' x ':=' m 'in' k" := (and_then m (fun x => k))
  (at level 10, x name, m at level 100, k at level 200) : outcome_scope.
Notation "m ';;' k" := (and_then m (fun _ => k))
  (at level 100, k at level 200, right associativity) : outcome_scope.

(** What a failed [assert] (bsert) throws. *)
Definition AssertionError : exn := Fault "AssertionError".

(** [assert(b)] *)
Definition Assert (b : bool) : outcome unit :=
  if b then Ret tt else Throw AssertionError.

(** More of JavaScript's string operations. *)
Module JsText.

(** The characters [trim] strips, among 8-bit characters: tab, line feed,
    vertical tab, form feed, carriage return, space and no-break space. *)
Definition is_space (c : ascii) : bool :=
  let n := nat_of_ascii c in
  ((Nat.leb 9 n && Nat.leb n 13) || Nat.eqb n 32 || Nat.eqb n 160)%bool.

Fixpoint trimStart (s : string) : string :=
  match s with
  | EmptyString => EmptyString
  | String c r => if is_space c then trimStart r else s
  end.

Fixpoint trimEnd (s : string) : string :=
  match s with
  | EmptyString => EmptyString
  | String c r =>
      let r' := trimEnd r in
      if (is_space c && (r' =? ""))%bool%string then EmptyString
      else String c r'
  end.

(** [s.trim()] *)
Definition trim (s : string) : string := trimEnd (trimStart s).

(** The line feed character. *)
Definition LF : ascii := ascii_of_nat 10.

(** [s.split('\n')]: the pieces between line feeds; the empty string
    splits into one empty piece. *)
Fixpoint split_lines (s : string) : list string :=
  match s with
  | EmptyString => [EmptyString]
  | String c r =>
      if Ascii.eqb c LF then EmptyString :: split_lines r
      else
        match split_lines r with
        | [] => [String c EmptyString]
        | piece :: pieces => String c piece :: pieces
        end
  end.

(** Whether a string holds a line feed. *)
Fixpoint has_LF (s : string) : bool :=
  match s with
  | EmptyString => false
  | String c r => (Ascii.eqb c LF || has_LF r)%bool
  end.

End JsText.

Section Construction.
Context {deps : Collaborators} {rt : Runtime}.
#[local] Open Scope outcome_scope.

(** The server object beyond the fields of [RecursiveServer]: the flags the
    constructor sets (lines 82-85), the logger and the delegation resolver. *)
Record Instance : Type := {
  fields : RecursiveServer;
  ra : bool;
  edns : bool;
  dnssec : bool;
  noAny : bool;
  logger : Logger;
  hns : resolver
}.

Definition with_fields (this : Instance) (f : RecursiveServer) : Instance :=
  {| fields := f; ra := ra this; edns := edns this; dnssec := dnssec this;
     noAny := noAny this; logger := logger this; hns := hns this |}.

Definition with_logger (this : Instance) (l : Logger) : Instance :=
  {| fields := fields this; ra := ra this; edns := edns this;
     dnssec := dnssec this; noAny := noAny this; logger := l;
     hns := hns this |}.

Definition with_hns (this : Instance) (r : resolver) : Instance :=
  {| fields := fields this; ra := ra this; edns := edns this;
     dnssec := dnssec this; noAny := noAny this; logger := logger this;
     hns := r |}.

Definition with_key (f : RecursiveServer) (k : Buffer) : RecursiveServer :=
  {| key := k; host := host f; port := port f; stubHost := stubHost f;
     stubPort := stubPort f; rs_cache := rs_cache f; ethurl := ethurl f |}.

Definition with_host (f : RecursiveServer) (h : string) : RecursiveServer :=
  {| key := key f; host := h; port := port f; stubHost := stubHost f;
     stubPort := stubPort f; rs_cache := rs_cache f; ethurl := ethurl f |}.

Definition with_port (f : RecursiveServer) (p : Z) : RecursiveServer :=
  {| key := key f; host := host f; port := p; stubHost := stubHost f;
     stubPort := stubPort f; rs_cache := rs_cache f; ethurl := ethurl f |}.

Definition with_stubHost (f : RecursiveServer) (h : string) : RecursiveServer :=
  {| key := key f; host := host f; port := port f; stubHost := h;
     stubPort := stubPort f; rs_cache := rs_cache f; ethurl := ethurl f |}.

Definition with_stubPort (f : RecursiveServer) (p : Z) : RecursiveServer :=
  {| key := key f; host := host f; port := port f; stubHost := stubHost f;
     stubPort := p; rs_cache := rs_cache f; ethurl := ethurl f |}.

Definition with_ethurl (f : RecursiveServer) (u : string) : RecursiveServer :=
  {| key := key f; host := host f; port := port f; stubHost := stubHost f;
     stubPort := stubPort f; rs_cache := rs_cache f; ethurl := Some u |}.

(** *** initOptions (lib/recursive.js, lines 118-179), block by block *)

(** Lines 123-126. A buffer passes the [typeof] test but has no [context]
    method: calling it is a TypeError. *)
Definition init_logger (v : Dyn.t) (this : Instance) : outcome Instance :=
  if Dyn.present v then
    Assert (Dyn.typeof v =? "object")%string;;
    match v with
    | Dyn.Obj handle =>
        let* l := Logger_context handle "rs" in
        Ret (with_logger this l)
    | _ => Throw TypeError
    end
  else Ret this.

(** Lines 128-132. *)
Definition init_key (v : Dyn.t) (this : Instance) : outcome Instance :=
  if Dyn.present v then
    Assert (Dyn.isBuffer v);;
    match v with
    | Dyn.Buf b =>
        Assert (Buffer_length b =? 32);;
        Ret (with_fields this (with_key (fields this) b))
    | _ => Throw TypeError
    end
  else Ret this.

(** Lines 134-137. *)
Definition init_host (v : Dyn.t) (this : Instance) : outcome Instance :=
  if Dyn.present v then
    Assert (Dyn.typeof v =? "string")%string;;
    match v with
    | Dyn.Str s =>
        let* h := IP_normalize s in
        Ret (with_fields this (with_host (fields this) h))
    | _ => Throw TypeError
    end
  else Ret this.

(** Lines 139-143. *)
Definition init_port (v : Dyn.t) (this : Instance) : outcome Instance :=
  if Dyn.present v then
    Assert (Dyn.is_masked_ffff v);;
    Assert (Dyn.is_not_zero v);;
    match v with
    | Dyn.Num z => Ret (with_fields this (with_port (fields this) z))
    | _ => Throw TypeError
    end
  else Ret this.

(** Lines 145-152. *)
Definition init_stubHost (v : Dyn.t) (this : Instance) : outcome Instance :=
  if Dyn.present v then
    Assert (Dyn.typeof v =? "string")%string;;
    match v with
    | Dyn.Str s =>
        let* h := IP_normalize s in
        let h := if ((h =? "0.0.0.0") || (h =? "::"))%string
                 then "127.0.0.1" else h in
        Ret (with_fields this (with_stubHost (fields this) h))
    | _ => Throw TypeError
    end
  else Ret this.

(** Lines 154-158. *)
Definition init_stubPort (v : Dyn.t) (this : Instance) : outcome Instance :=
  if Dyn.present v then
    Assert (Dyn.is_masked_ffff v);;
    Assert (Dyn.is_not_zero v);;
    match v with
    | Dyn.Num z => Ret (with_fields this (with_stubPort (fields this) z))
    | _ => Throw TypeError
    end
  else Ret this.

(** Lines 160-171. *)
Definition init_noUnbound (v : Dyn.t) (this : Instance) : outcome Instance :=
  if Dyn.present v then
    Assert (Dyn.typeof v =? "boolean")%string;;
    match v with
    | Dyn.Bool true => Ret (with_hns this RecursiveResolver)
    | _ => Ret this
    end
  else Ret this.

(** Lines 173-176. *)
Definition init_ethurl (v : Dyn.t) (this : Instance) : outcome Instance :=
  if Dyn.present v then
    Assert (Dyn.typeof v =? "string")%string;;
    match v with
    | Dyn.Str s => Ret (with_fields this (with_ethurl (fields this) s))
    | _ => Throw TypeError
    end
  else Ret this.

(** [initOptions(options)]; [None] is an [options] that is not an object
    ([undefined], [null]), which [assert(options)] rejects. *)
Definition initOptions (options : option Options.t) (this : Instance)
    : outcome Instance :=
  match options with
  | None => Throw AssertionError
  | Some options =>
      DNSServer_parseOptions options;;
      let* this := init_logger (Options.logger options) this in
      let* this := init_key (Options.key options) this in
      let* this := init_host (Options.host options) this in
      let* this := init_port (Options.port options) this in
      let* this := init_stubHost (Options.stubHost options) this in
      let* this := init_stubPort (Options.stubPort options) this in
      let* this := init_noUnbound (Options.noUnbound options) this in
      let* this := init_ethurl (Options.ethurl options) this in
      Ret this
  end.

(** *** The constructor (lines 79-116) *)

(** The constructed server: the object, the url its registry client was
    built with and the stub [this.hns.setStub] was given (with [key.ds] as
    the trust anchor). *)
Record Constructed : Type := {
  self : Instance;
  ethClient_url : option string;
  stub : string * Z
}.

(** The object before the options are read (lines 80-104); [generated] is
    the key [secp256k1.privateKeyGenerate()] returns. *)
Definition defaults (generated : Buffer) : Instance :=
  {| fields := RecursiveServer_new generated;
     ra := true; edns := true; dnssec := true; noAny := true;
     logger := Logger_global;
     hns := UnboundResolver |}.

(** [new RecursiveServer(options)]; [initNode] (lines 181-196) only
    registers the listeners modelled below. *)
Definition construct (generated : Buffer) (options : option Options.t)
    : outcome Constructed :=
  let this := defaults generated in
  let* this := match options with
               | Some _ => initOptions options this
               | None => Ret this
               end in
  let url := ethurl (fields this) in
  hns_setStub (hns this) (stubHost (fields this)) (stubPort (fields this));;
  Ret {| self := this;
         ethClient_url := url;
         stub := (stubHost (fields this), stubPort (fields this)) |}.

(** *** Logging (lines 181-208) *)

Inductive log_call : Type :=
| Spam (line : string)
| Debug (args : list string)
| Error (err : exn)
| Info (format : string) (arg : Z).

(** [logMessage(prefix, msg)] (lines 198-208): the logger calls it makes. *)
Definition logMessage (this : Instance) (prefix : string) (msg : Message.t)
    : list log_call :=
  if Logger_level (logger this) <? 5 then []
  else
    let logs := JsText.split_lines (JsText.trim (Message_toString msg)) in
    Spam prefix :: map Spam logs.

(** The listeners [initNode] registers (lines 182-193). *)
Definition on_hns_log (this : Instance) (args : list string) : list log_call :=
  [Debug args].

Definition on_error (this : Instance) (err : exn) : list log_call :=
  [Error err].

Definition on_query (this : Instance) (req res : Message.t) : list log_call :=
  (logMessage this "DNS Request:" req
   ++ logMessage this "DNS Response:" res)%list.

(** *** Lifecycle (lines 218-229) *)

(** What [open] and [close] do to the outside, in order. *)
Inductive effect : Type :=
| HnsOpen
| ServerOpen (port : Z) (host : string)
| ServerClose
| HnsClose
| Log (c : log_call).

(** A lifecycle run: the effects so far and how the run ended. *)
Definition run (A : Type) : Type := list effect * outcome A.

Definition perform {A : Type} (e : effect) (o : outcome A) : run A := ([e], o).

Definition seq_run {A B : Type} (r : run A) (k : A -> run B) : run B :=
  match snd r with
  | Ret a => (fst r ++ fst (k a), snd (k a))%list
  | Throw e => (fst r, Throw e)
  end.

(** [open(...args)]; the arguments are never read. *)
Definition open (this : Instance) (args : list Dyn.t) : run unit :=
  seq_run (perform HnsOpen (hns_open (hns this))) (fun _ =>
  seq_run (perform (ServerOpen (port (fields this)) (host (fields this)))
             (DNSServer_open (port (fields this)) (host (fields this))))
          (fun _ =>
  perform (Log (Info "Recursive server listening on port %d."
                  (port (fields this))))
          (Ret tt))).

(** [close()] *)
Definition close (this : Instance) : run unit :=
  seq_run (perform ServerClose DNSServer_close) (fun _ =>
  perform HnsClose (hns_close (hns this))).

End Construction.

(** Concrete further collaborators, over those of [Fixture]: a logger is
    its context name and level; only [Bytes] buffers have a length; every
    host but ["bogus"] normalizes to itself; the transport and the resolver
    always succeed. *)
Module Harness.
#[local] Existing Instance Fixture.deps.

Definition context (handle : nat) (name : string) : outcome (string * Z) :=
  Ret (name, Z.of_nat handle).

Definition length (b : Fixture.buffer) : Z :=
  match b with
  | Fixture.Bytes s => Z.of_nat (String.length s)
  | Fixture.Encoded _ => 0
  end.

Definition normalize (s : string) : outcome string :=
  if (s =? "bogus")%string then Throw (Fault "Invalid IP") else Ret s.

Definition render (m : Message.t) : string :=
  String JsText.LF
    ("id: " ++ String JsText.LF ("answers" ++ String JsText.LF " ")).

#[export] Instance rt : @Runtime Fixture.deps :=
  @Build_Runtime Fixture.deps
    (string * Z)            (* Logger *)
    ("", 4)                 (* Logger_global *)
    context                 (* Logger_context *)
    snd                     (* Logger_level *)
    length                  (* Buffer_length *)
    normalize               (* IP_normalize *)
    (fun _ => Ret tt)       (* DNSServer_parseOptions *)
    (fun _ _ => Ret tt)     (* DNSServer_open *)
    (Ret tt)                (* DNSServer_close *)
    (fun _ _ _ => Ret tt)   (* hns_setStub *)
    (fun _ => Ret tt)       (* hns_open *)
    (fun _ => Ret tt)       (* hns_close *)
    render.                 (* Message_toString *)

(** The object before any option is read. *)
Definition fresh : @Instance Fixture.deps rt :=
  @defaults Fixture.deps rt (Fixture.Bytes "g").

Definition key32 : Fixture.buffer :=
  Fixture.Bytes "0123456789abcdef0123456789abcdef".

(** The options the plugin passes on a node whose authoritative server
    listens on every interface. *)
Definition options : @Options.t Fixture.deps :=
  Options.mk (Dyn.Obj 5) (Dyn.Buf key32) (Dyn.Str "127.0.0.1") (Dyn.Num 5350)
    (Dyn.Str "0.0.0.0") (Dyn.Num 5349) (Dyn.Bool true)
    (Dyn.Str "http://localhost:8545").

End Harness.

(** * Properties *)

(** ** Strings *)

Lemma append_assoc (a b c : string) : (a ++ b) ++ c = a ++ (b ++ c).
Proof. induction a as [|x a IH]; simpl; [reflexivity | now rewrite IH]. Qed.

Lemma length_append (a b : string) :
  String.length (a ++ b) = (String.length a + String.length b)%nat.
Proof. induction a as [|x a IH]; simpl; [reflexivity | now rewrite IH]. Qed.

Lemma substring_from_suffix (off : nat) (s : string) :
  exists pre, s = pre ++ Js.substring_from off s.
Proof.
  revert s; induction off as [|k IH]; intros s.
  - exists ""; reflexivity.
  - destruct s as [|c r]; simpl.
    + exists ""; reflexivity.
    + destruct (IH r) as [pre Hpre]. exists (String c pre).
      simpl. now rewrite <- Hpre.
Qed.

Lemma slice_but_last_snoc (s : string) (c : ascii) :
  Js.slice_but_last (s ++ String c "") = s.
Proof.
  unfold Js.slice_but_last.
  replace (String.length (s ++ String c "") - 1)%nat with (String.length s)
    by (rewrite length_append; simpl; lia).
  induction s as [|x s IH]; simpl; [reflexivity | now rewrite IH].
Qed.

Lemma digits_no_separator (d : uint) :
  no_separator (NilEmpty.string_of_uint d) = true.
Proof. induction d; simpl; auto. Qed.

Lemma separator_found (a b : string) : no_separator (a ++ String ";" b) = false.
Proof.
  induction a as [|x a IH]; simpl; [reflexivity|].
  rewrite IH. apply andb_false_r.
Qed.

Lemma key_parts_inj (a b d1 d2 : string) :
  no_separator d1 = true -> no_separator d2 = true ->
  a ++ String ";" d1 = b ++ String ";" d2 -> a = b /\ d1 = d2.
Proof.
  intros H1 H2. revert b.
  induction a as [|x a IH]; intros [|y b]; simpl; intros E.
  - injection E as ->. auto.
  - injection E as <- ->. now rewrite separator_found in H1.
  - injection E as -> <-. now rewrite separator_found in H2.
  - injection E as -> E. destruct (IH _ E) as [-> ->]. auto.
Qed.

Lemma toString10_inj (m n : N) : Js.toString10 m = Js.toString10 n -> m = n.
Proof.
  unfold Js.toString10. intros E.
  apply DecimalN.Unsigned.to_uint_inj.
  assert (H : Some (N.to_uint m) = Some (N.to_uint n))
    by now rewrite <- !NilEmpty.usu, E.
  now injection H.
Qed.

Lemma toKey_unfold (name : string) (type : N) :
  toKey name type = Js.toLowerCase name ++ String ";" (Js.toString10 type).
Proof. unfold toKey. simpl. now rewrite append_assoc. Qed.

Lemma toKey_inj (n m : string) (t u : N) :
  toKey n t = toKey m u <-> Js.toLowerCase n = Js.toLowerCase m /\ t = u.
Proof.
  rewrite !toKey_unfold. split.
  - intros E. apply key_parts_inj in E; try apply digits_no_separator.
    destruct E as [E1 E2]. split; [assumption | now apply toString10_inj].
  - now intros [-> ->].
Qed.

(** ** The bounded store *)

Section LRUFacts.
Context {V : Type}.
Implicit Types (l : list (string * V)) (c : LRU.t V) (k : string) (v : V).

Lemma peek_items_In k l v : LRU.peek_items k l = Some v -> In (k, v) l.
Proof.
  induction l as [|[k' v'] l IH]; simpl; [discriminate|].
  destruct (String.eqb_spec k' k) as [->|_].
  - intros [= ->]. now left.
  - intros H. right. auto.
Qed.

Lemma peek_items_None k l : LRU.peek_items k l = None <-> forall v, ~ In (k, v) l.
Proof.
  induction l as [|[k' v'] l IH]; simpl.
  - split; auto.
  - destruct (String.eqb_spec k' k) as [->|Hne]; split.
    + discriminate.
    + intros H. exfalso. apply (H v'). now left.
    + intros H v [[= E _]|Hin]; [contradiction|]. now apply (proj1 IH H v).
    + intros H. apply IH. intros v Hin. apply (H v). now right.
Qed.

Lemma peek_items_app k l1 l2 :
  LRU.peek_items k (l1 ++ l2) =
  match LRU.peek_items k l1 with
  | Some v => Some v
  | None => LRU.peek_items k l2
  end.
Proof.
  induction l1 as [|[k' v'] l1 IH]; simpl; [reflexivity|].
  now destruct (k' =? k)%string.
Qed.

Lemma In_others k k' v l : In (k', v) (LRU.others k l) <-> In (k', v) l /\ k' <> k.
Proof.
  unfold LRU.others. rewrite filter_In. simpl.
  rewrite negb_true_iff, String.eqb_neq. tauto.
Qed.

Lemma peek_items_others_same k l : LRU.peek_items k (LRU.others k l) = None.
Proof. apply peek_items_None. intros v H. apply In_others in H. tauto. Qed.

Lemma peek_items_others_other k k' l :
  k' <> k -> LRU.peek_items k' (LRU.others k l) = LRU.peek_items k' l.
Proof.
  intros Hne. induction l as [|[k2 v2] l IH]; simpl; [reflexivity|].
  destruct (String.eqb_spec k2 k) as [->|Hk]; simpl.
  - destruct (String.eqb_spec k k') as [E|_]; [now symmetry in E | assumption].
  - now rewrite IH.
Qed.

Lemma others_absent k l : LRU.peek_items k l = None -> LRU.others k l = l.
Proof.
  induction l as [|[k' v'] l IH]; simpl; [reflexivity|].
  destruct (k' =? k)%string; simpl; [discriminate|].
  intros H. now rewrite IH.
Qed.

Lemma length_others k l : (List.length (LRU.others k l) <= List.length l)%nat.
Proof. apply filter_length_le. Qed.

Lemma length_others_hit k l v :
  LRU.peek_items k l = Some v ->
  (S (List.length (LRU.others k l)) <= List.length l)%nat.
Proof.
  induction l as [|[k' v'] l IH]; simpl; [discriminate|].
  destruct (k' =? k)%string; simpl.
  - intros _. pose proof (length_others k l). lia.
  - intros H. apply IH in H. lia.
Qed.

Lemma capacity_set k v c : LRU.capacity (LRU.set k v c) = LRU.capacity c.
Proof. reflexivity. Qed.

Lemma capacity_get k c : LRU.capacity (snd (LRU.get k c)) = LRU.capacity c.
Proof. unfold LRU.get. now destruct (LRU.peek k c). Qed.

Lemma size_set k v c : (LRU.size (LRU.set k v c) <= LRU.capacity c)%nat.
Proof.
  unfold LRU.set, LRU.compact, LRU.size. simpl.
  rewrite length_skipn. lia.
Qed.

Lemma size_get k c : (LRU.size (snd (LRU.get k c)) <= LRU.size c)%nat.
Proof.
  unfold LRU.get, LRU.peek, LRU.size.
  destruct (LRU.peek_items k (LRU.items c)) as [v|] eqn:E; simpl; [|lia].
  rewrite length_app. simpl. apply length_others_hit in E. lia.
Qed.

(** A hit never removes an entry: every key reads as before. *)
Lemma peek_get k k' c : LRU.peek k' (snd (LRU.get k c)) = LRU.peek k' c.
Proof.
  unfold LRU.get, LRU.peek.
  destruct (LRU.peek_items k (LRU.items c)) as [v|] eqn:E; simpl; [|reflexivity].
  rewrite peek_items_app. destruct (String.eqb_spec k' k) as [->|Hne].
  - rewrite peek_items_others_same. simpl. now rewrite String.eqb_refl, E.
  - rewrite peek_items_others_other by assumption.
    destruct (LRU.peek_items k' (LRU.items c)); [reflexivity|].
    simpl. destruct (String.eqb_spec k k') as [Ek|_]; [|reflexivity].
    now symmetry in Ek.
Qed.

Lemma fst_get k c : fst (LRU.get k c) = LRU.peek k c.
Proof. unfold LRU.get. now destruct (LRU.peek k c). Qed.

Lemma skipn_snoc {A} (n : nat) (l : list A) (x : A) :
  (n <= List.length l)%nat -> skipn n (l ++ [x]) = (skipn n l ++ [x])%list.
Proof.
  intros H. rewrite skipn_app.
  replace (n - List.length l)%nat with O by lia. reflexivity.
Qed.

Lemma In_skipn {A} (n : nat) (l : list A) (x : A) : In x (skipn n l) -> In x l.
Proof.
  intros H. rewrite <- (firstn_skipn n l). apply in_or_app. now right.
Qed.

Lemma items_set k v c :
  (0 < LRU.capacity c)%nat ->
  exists n, LRU.items (LRU.set k v c) =
            (skipn n (LRU.others k (LRU.items c)) ++ [(k, v)])%list.
Proof.
  intros Hcap. unfold LRU.set, LRU.compact, LRU.size. simpl.
  rewrite length_app. simpl.
  eexists. apply skipn_snoc. lia.
Qed.

(** Reading back what was just stored. *)
Lemma peek_set k v c : (0 < LRU.capacity c)%nat -> LRU.peek k (LRU.set k v c) = Some v.
Proof.
  intros Hcap. destruct (items_set k v c Hcap) as [n Hn].
  unfold LRU.peek. rewrite Hn, peek_items_app.
  replace (LRU.peek_items k (skipn n (LRU.others k (LRU.items c)))) with (@None V).
  - simpl. now rewrite String.eqb_refl.
  - symmetry. apply peek_items_None. intros x Hx.
    apply In_skipn, In_others in Hx. tauto.
Qed.

(** Storing into a full store that lacks the key drops exactly the head. *)
Lemma set_full k v c :
  (0 < LRU.capacity c)%nat -> LRU.size c = LRU.capacity c -> LRU.peek k c = None ->
  LRU.items (LRU.set k v c) = (tl (LRU.items c) ++ [(k, v)])%list.
Proof.
  unfold LRU.peek, LRU.size. intros Hcap Hsize Hk.
  unfold LRU.set, LRU.compact, LRU.size. simpl.
  rewrite (others_absent _ _ Hk), length_app. simpl.
  replace (List.length (LRU.items c) + 1 - LRU.capacity c)%nat with 1%nat by lia.
  destruct (LRU.items c) as [|x l]; simpl in *; [lia | reflexivity].
Qed.

Lemma entries_satisfy_create (P : V -> Prop) k n :
  LRU.entries_satisfy P k (LRU.create n).
Proof. intros v []. Qed.

Lemma entries_satisfy_set_same (P : V -> Prop) k v c :
  P v -> LRU.entries_satisfy P k (LRU.set k v c).
Proof.
  intros HP x Hx. unfold LRU.set, LRU.compact in Hx. simpl in Hx.
  apply In_skipn, in_app_or in Hx. destruct Hx as [Hx|[[= <-]|[]]].
  - apply In_others in Hx. tauto.
  - assumption.
Qed.

Lemma entries_satisfy_set_other (P : V -> Prop) k k' v c :
  k' <> k -> LRU.entries_satisfy P k c -> LRU.entries_satisfy P k (LRU.set k' v c).
Proof.
  intros Hne H x Hx. unfold LRU.set, LRU.compact in Hx. simpl in Hx.
  apply In_skipn, in_app_or in Hx. destruct Hx as [Hx|[[= E _]|[]]].
  - apply In_others in Hx. apply H. tauto.
  - contradiction.
Qed.

Lemma entries_satisfy_get (P : V -> Prop) k k' c :
  LRU.entries_satisfy P k c -> LRU.entries_satisfy P k (snd (LRU.get k' c)).
Proof.
  intros H x Hx. unfold LRU.get, LRU.peek in Hx.
  destruct (LRU.peek_items k' (LRU.items c)) as [v|] eqn:E; simpl in Hx.
  - apply in_app_or in Hx. destruct Hx as [Hx|[[= <- <-]|[]]].
    + apply In_others in Hx. apply H. tauto.
    + apply H. now apply peek_items_In.
  - now apply H.
Qed.

Lemma entries_satisfy_peek (P : V -> Prop) k c v :
  LRU.entries_satisfy P k c -> LRU.peek k c = Some v -> P v.
Proof. intros H E. apply H. now apply peek_items_In. Qed.

(** An entry lost by a [set] under another key was lost to compaction. *)
Lemma set_evicts_only_when_full k k' v c :
  k' <> k -> LRU.has k c = true -> LRU.has k (LRU.set k' v c) = false ->
  (LRU.capacity c <= LRU.size c)%nat.
Proof.
  unfold LRU.has, LRU.peek, LRU.set, LRU.compact, LRU.size. simpl.
  intros Hne Hin Hout.
  destruct (Nat.le_gt_cases (LRU.capacity c) (List.length (LRU.items c)))
    as [|Hlt]; [assumption|exfalso].
  rewrite length_app in Hout. simpl in Hout.
  pose proof (length_others k' (LRU.items c)).
  replace (List.length (LRU.others k' (LRU.items c)) + 1 - LRU.capacity c)%nat
    with O in Hout by lia.
  simpl in Hout. rewrite peek_items_app in Hout.
  rewrite peek_items_others_other in Hout by congruence.
  destruct (LRU.peek_items k (LRU.items c)); discriminate.
Qed.

End LRUFacts.

(** ** The response cache *)

Section CacheFacts.
Context {deps : Collaborators}.

Lemma ENSCache_get_result now name type c :
  fst (ENSCache_get now name type c) =
  match LRU.peek (toKey name type) (cache c) with
  | None => Ret None
  | Some it =>
      if now >? time it + freshness_window then Ret None
      else match Message_decode (raw it) with
           | Ret m => Ret (Some m)
           | Throw e => Throw e
           end
  end.
Proof.
  unfold ENSCache_get.
  rewrite <- (fst_get (toKey name type) (cache c)).
  destruct (LRU.get (toKey name type) (cache c)) as [[it|] store]; simpl;
    [|reflexivity].
  destruct (now >? time it + freshness_window); [reflexivity|].
  now destruct (Message_decode (raw it)).
Qed.

Lemma ENSCache_get_store now name type c :
  cache (snd (ENSCache_get now name type c)) =
  snd (LRU.get (toKey name type) (cache c)).
Proof.
  unfold ENSCache_get.
  destruct (LRU.get (toKey name type) (cache c)) as [[it|] store]; simpl;
    [|reflexivity].
  destruct (now >? time it + freshness_window); [reflexivity|].
  now destruct (Message_decode (raw it)).
Qed.

(** A [set] returns exactly when [msg.compress()] does, with the entry
    stored. *)
Lemma ENSCache_set_ret now name type msg c c' :
  ENSCache_set now name type msg c = Ret c' <->
  exists raw,
    Message_compress msg = Ret raw
    /\ c' = {| cache := LRU.set (toKey name type)
                          {| time := now; raw := raw |} (cache c) |}.
Proof.
  unfold ENSCache_set. destruct (Message_compress msg) as [raw|e]; split.
  - intros [= <-]. eauto.
  - intros (raw' & [= <-] & ->). reflexivity.
  - discriminate.
  - intros (raw' & Hraw & _). discriminate.
Qed.

Lemma ENSCache_set_throw now name type msg c e :
  ENSCache_set now name type msg c = Throw e <-> Message_compress msg = Throw e.
Proof.
  unfold ENSCache_set. destruct (Message_compress msg) as [raw|e']; split;
    congruence.
Qed.

Lemma capacity_run_op c op :
  LRU.capacity (cache (run_op c op)) = LRU.capacity (cache c).
Proof.
  destruct op; simpl.
  - destruct (ENSCache_set now name type msg c) as [c'|e] eqn:E;
      [|reflexivity].
    apply ENSCache_set_ret in E. destruct E as (raw & _ & ->). reflexivity.
  - rewrite ENSCache_get_store. apply capacity_get.
Qed.

Lemma cardinality_run_op c op :
  (cardinality c <= LRU.capacity (cache c))%nat ->
  (cardinality (run_op c op) <= LRU.capacity (cache c))%nat.
Proof.
  unfold cardinality. intros H. destruct op; simpl.
  - destruct (ENSCache_set now name type msg c) as [c'|e] eqn:E;
      [|assumption].
    apply ENSCache_set_ret in E. destruct E as (raw & _ & ->). simpl.
    apply size_set.
  - rewrite ENSCache_get_store.
    pose proof (size_get (toKey name type) (cache c)). lia.
Qed.

Lemma cardinality_run_ops ops c :
  (cardinality c <= LRU.capacity (cache c))%nat ->
  (cardinality (run_ops ops c) <= LRU.capacity (cache c))%nat.
Proof.
  revert c. induction ops as [|op ops IH]; intros c H; simpl; [assumption|].
  rewrite <- (capacity_run_op c op). apply IH.
  rewrite capacity_run_op. now apply cardinality_run_op.
Qed.

Lemma entries_satisfy_run_op (P : item -> Prop) k c op :
  sets_key k op = false ->
  LRU.entries_satisfy P k (cache c) ->
  LRU.entries_satisfy P k (cache (run_op c op)).
Proof.
  destruct op; simpl; intros Hk H.
  - destruct (ENSCache_set now name type msg c) as [c'|e] eqn:E;
      [|assumption].
    apply ENSCache_set_ret in E. destruct E as (raw & _ & ->). simpl.
    apply entries_satisfy_set_other; [|assumption].
    now apply String.eqb_neq.
  - rewrite ENSCache_get_store. now apply entries_satisfy_get.
Qed.

Lemma entries_satisfy_run_ops (P : item -> Prop) k ops c :
  existsb (sets_key k) ops = false ->
  LRU.entries_satisfy P k (cache c) ->
  LRU.entries_satisfy P k (cache (run_ops ops c)).
Proof.
  revert c. induction ops as [|op ops IH]; intros c Hk H; simpl; [assumption|].
  simpl in Hk. apply orb_false_iff in Hk. destruct Hk as [Hop Hops].
  apply IH; [assumption|]. now apply entries_satisfy_run_op.
Qed.

End CacheFacts.

(** C5: for all names and types, [get(name, type)] after a
    [set(name, type, msg)] that returned gives a response with the content
    of [msg] (given the codec decodes what it compressed), whatever other
    cache calls came in between, provided at most 6 hours elapsed between
    the [set] and the [get] and the entry was not evicted. *)
Theorem cache_get_after_set {deps : Collaborators}
    (c c1 : ENSCache) (t0 t1 : Z) (name : string) (type : N) (msg : Message.t)
    (ops : list cache_op) :
  codec_roundtrip ->
  ENSCache_set t0 name type msg c = Ret c1 ->
  existsb (sets_key (toKey name type)) ops = false ->
  LRU.has (toKey name type) (cache (run_ops ops c1)) = true ->
  t1 - t0 <= 6 * 60 * 60 * 1000 ->
  fst (ENSCache_get t1 name type (run_ops ops c1)) = Ret (Some msg).
Proof.
  intros Hcodec Hset Hops Hhas Hage.
  apply ENSCache_set_ret in Hset. destruct Hset as (bytes & Hraw & ->).
  set (stored := {| time := t0; raw := bytes |}).
  set (c1 := {| cache := LRU.set (toKey name type) stored (cache c) |}) in *.
  assert (Hinv : LRU.entries_satisfy (fun it => it = stored) (toKey name type)
                   (cache (run_ops ops c1))).
  { apply entries_satisfy_run_ops; [assumption|].
    simpl. now apply entries_satisfy_set_same. }
  rewrite ENSCache_get_result. unfold LRU.has in Hhas.
  destruct (LRU.peek _ _) as [it|] eqn:E; [|discriminate].
  apply (entries_satisfy_peek _ _ _ _ Hinv) in E. subst it. simpl.
  unfold freshness_window.
  destruct (Z.gtb_spec t1 (t0 + 6 * 60 * 60 * 1000)); [lia|].
  now rewrite (Hcodec _ _ Hraw).
Qed.

(** C6 (amended): [get] returns absent for a key that was never set, and
    absent again once more than 6 hours have elapsed since the most recent
    [set] for that key, regardless of intervening reads (and of writes
    under other keys); [get] removes no entry from the bounded store, a
    stale one included: an entry disappears only in a [set] that finds the
    store at capacity. *)
Theorem cache_get_absent {deps : Collaborators} :
  (forall size ops now name type,
      existsb (sets_key (toKey name type)) ops = false ->
      fst (ENSCache_get now name type (run_ops ops (ENSCache_new size)))
      = Ret None)
  /\ (forall c c1 t0 t1 name type msg ops,
      ENSCache_set t0 name type msg c = Ret c1 ->
      existsb (sets_key (toKey name type)) ops = false ->
      6 * 60 * 60 * 1000 < t1 - t0 ->
      fst (ENSCache_get t1 name type (run_ops ops c1)) = Ret None)
  /\ (forall c now name type k,
      LRU.peek k (cache (snd (ENSCache_get now name type c)))
      = LRU.peek k (cache c))
  /\ (forall c op k,
      LRU.has k (cache c) = true ->
      LRU.has k (cache (run_op c op)) = false ->
      exists now name type msg,
        op = OpSet now name type msg
        /\ (LRU.capacity (cache c) <= cardinality c)%nat).
Proof.
  repeat split.
  - intros size ops now name type Hops.
    assert (Hinv : LRU.entries_satisfy (fun _ => False) (toKey name type)
                     (cache (run_ops ops (ENSCache_new size)))).
    { apply entries_satisfy_run_ops; [assumption|].
      apply entries_satisfy_create. }
    rewrite ENSCache_get_result.
    destruct (LRU.peek _ _) as [it|] eqn:E; [|reflexivity].
    destruct (entries_satisfy_peek _ _ _ _ Hinv E).
  - intros c c1 t0 t1 name type msg ops Hset Hops Hage.
    apply ENSCache_set_ret in Hset. destruct Hset as (bytes & _ & ->).
    assert (Hinv : LRU.entries_satisfy (fun it => time it = t0) (toKey name type)
                     (cache (run_ops ops
                        {| cache := LRU.set (toKey name type)
                                      {| time := t0; raw := bytes |}
                                      (cache c) |}))).
    { apply entries_satisfy_run_ops; [assumption|].
      simpl. now apply entries_satisfy_set_same. }
    rewrite ENSCache_get_result.
    destruct (LRU.peek _ _) as [it|] eqn:E; [|reflexivity].
    apply (entries_satisfy_peek _ _ _ _ Hinv) in E. rewrite E.
    unfold freshness_window.
    destruct (Z.gtb_spec t1 (t0 + 6 * 60 * 60 * 1000)); [reflexivity|lia].
  - intros c now name type k.
    rewrite ENSCache_get_store. apply peek_get.
  - intros c op k Hin Hout. destruct op as [now name type msg|now name type].
    + exists now, name, type, msg. split; [reflexivity|].
      simpl in Hout. unfold cardinality.
      destruct (ENSCache_set now name type msg c) as [c'|e] eqn:Hset;
        [|congruence].
      apply ENSCache_set_ret in Hset. destruct Hset as (bytes & _ & ->).
      simpl in Hout.
      destruct (String.eqb_spec (toKey name type) k) as [<-|Hne].
      * destruct (LRU.capacity (cache c)) eqn:Hcap; [lia|].
        unfold LRU.has in Hout. rewrite peek_set in Hout by lia.
        discriminate.
      * now apply (set_evicts_only_when_full k (toKey name type)
                     {| time := now; raw := bytes |}).
    + simpl in Hout. unfold LRU.has in Hin, Hout.
      rewrite ENSCache_get_store, peek_get in Hout.
      destruct (LRU.peek k (cache c)); discriminate.
Qed.

(** C7: cache keys are case-insensitive in the name and specific to the
    record type: two (name, type) pairs share a key exactly when the names
    agree up to case and the types are equal; so [get(M, T)] after
    [set(N, T, R)] is a hit whenever [lowercase(N) = lowercase(M)], as for
    ["Example.ETH."] after ["example.eth."]. *)
Theorem cache_key_case_insensitive {deps : Collaborators} :
  (forall n m t u,
      toKey n t = toKey m u <-> Js.toLowerCase n = Js.toLowerCase m /\ t = u)
  /\ (forall c c1 t0 t1 n m t r,
      codec_roundtrip ->
      ENSCache_set t0 n t r c = Ret c1 ->
      Js.toLowerCase n = Js.toLowerCase m ->
      (0 < LRU.capacity (cache c))%nat ->
      t1 - t0 <= 6 * 60 * 60 * 1000 ->
      fst (ENSCache_get t1 m t c1) = Ret (Some r))
  /\ (forall t, toKey "Example.ETH." t = toKey "example.eth." t).
Proof.
  split; [|split].
  - intros. apply toKey_inj.
  - intros c c1 t0 t1 n m t r Hcodec Hset Hcase Hcap Hage.
    apply ENSCache_set_ret in Hset. destruct Hset as (bytes & Hraw & ->).
    assert (Hkey : toKey m t = toKey n t) by (apply toKey_inj; auto).
    rewrite ENSCache_get_result, Hkey. simpl.
    rewrite peek_set by assumption. simpl. unfold freshness_window.
    destruct (Z.gtb_spec t1 (t0 + 6 * 60 * 60 * 1000)); [lia|].
    now rewrite (Hcodec _ _ Hraw).
  - intros t. now apply toKey_inj.
Qed.

(** C8: the cache's cardinality never exceeds its configured capacity
    (500 for the server's cache) after any sequence of [set] and [get]
    calls; a [set] under a key not yet present in a capacity-500 cache that
    holds 500 entries evicts exactly one entry, the least recently used
    one (the head of the recency order), and leaves 500 entries. *)
Theorem cache_cardinality_bounded {deps : Collaborators} :
  (forall size ops,
      (cardinality (run_ops ops (ENSCache_new size)) <= size)%nat)
  /\ (forall generated,
      LRU.capacity (cache (rs_cache (RecursiveServer_new generated))) = 500%nat)
  /\ (forall c c' now name type msg,
      LRU.capacity (cache c) = 500%nat ->
      cardinality c = 500%nat ->
      LRU.has (toKey name type) (cache c) = false ->
      ENSCache_set now name type msg c = Ret c' ->
      cardinality c' = 500%nat
      /\ exists bytes,
           Message_compress msg = Ret bytes
           /\ LRU.items (cache c')
              = (tl (LRU.items (cache c))
                 ++ [(toKey name type,
                      {| time := now; raw := bytes |})])%list).
Proof.
  split; [|split].
  - intros size ops.
    apply (cardinality_run_ops ops (ENSCache_new size)).
    unfold cardinality, LRU.size. simpl. lia.
  - reflexivity.
  - intros c c' now name type msg Hcap Hsize Habsent Hset.
    apply ENSCache_set_ret in Hset. destruct Hset as (bytes & Hraw & ->).
    assert (Hitems : LRU.items (LRU.set (toKey name type)
                                  {| time := now; raw := bytes |} (cache c))
         = (tl (LRU.items (cache c))
            ++ [(toKey name type,
                 {| time := now; raw := bytes |})])%list).
    { apply set_full.
      - lia.
      - unfold cardinality in Hsize. congruence.
      - unfold LRU.has in Habsent.
        now destruct (LRU.peek (toKey name type) (cache c)). }
    split; [|exists bytes; split; assumption].
    unfold cardinality, LRU.size in *.
    change (cache {| cache := LRU.set (toKey name type)
                               {| time := now; raw := bytes |} (cache c) |})
      with (LRU.set (toKey name type)
              {| time := now; raw := bytes |} (cache c)).
    rewrite Hitems, length_app.
    simpl. destruct (LRU.items (cache c)); simpl in *; lia.
Qed.

(** ** The query router *)

Section ResolveFacts.
Context {deps : Collaborators}.

Lemma clone_same (qs : Question.t) : Question.clone qs = qs.
Proof. now destruct qs. Qed.

Lemma openalias_format (v : Js.value) (name : string) :
  openalias v name =
  "oa1:eth recipient_address=" ++ Js.template v
    ++ "; recipient_name=" ++ name ++ ";".
Proof.
  unfold openalias. cbn [append]. now rewrite !append_assoc.
Qed.

(** A name routed to the interception path ends with [eth.]. *)
Lemma top_label_eth (name : string) :
  top_label name = "eth." -> exists pre, name = pre ++ "eth.".
Proof.
  unfold top_label, util.from.
  destruct (_ || _)%bool; [discriminate|].
  intros <-. apply substring_from_suffix.
Qed.

Lemma bare_name (name : string) :
  top_label name = "eth." -> name = Js.slice_but_last name ++ ".".
Proof.
  intros H. destruct (top_label_eth name H) as [pre ->].
  assert (E : pre ++ "eth." = (pre ++ "eth") ++ ".")
    by now rewrite append_assoc.
  rewrite E, slice_but_last_snoc. reflexivity.
Qed.

Lemma cache_get_run name type w :
  cache_get name type w =
  {| res := fst (ENSCache_get (clock w) name type (rs_cache (this w)));
     world := {| this := with_cache (this w)
                   (snd (ENSCache_get (clock w) name type (rs_cache (this w))));
                 clock := clock w |};
     calls := [] |}.
Proof.
  unfold cache_get.
  now destruct (ENSCache_get (clock w) name type (rs_cache (this w))).
Qed.

Lemma resolve_delegated req qs rest w :
  Request.question req = qs :: rest ->
  top_label (Question.name qs) <> "eth." ->
  resolve req w = await_hns_resolve qs w.
Proof.
  intros Hq Hl. unfold resolve. rewrite Hq.
  apply String.eqb_neq in Hl. unfold top_label in Hl. now rewrite Hl.
Qed.

Lemma resolve_intercepted req qs rest w :
  Request.question req = qs :: rest ->
  top_label (Question.name qs) = "eth." ->
  resolve req w =
  bind (cache_get (Question.name qs) types_TXT)
    (fun cache =>
       match cache with
       | Some cache => ret cache
       | None =>
           bind (await_resolveENS (Js.slice_but_last (Question.name qs)))
             (fun res =>
                bind (cache_set (Question.name qs) types_TXT
                        (synthesize qs
                           (openalias res (Js.slice_but_last (Question.name qs)))))
                  (fun _ =>
                     ret (synthesize qs
                            (openalias res
                               (Js.slice_but_last (Question.name qs))))))
       end) w.
Proof.
  intros Hq Hl. unfold resolve. rewrite Hq.
  apply String.eqb_eq in Hl. unfold top_label in Hl. now rewrite Hl.
Qed.

(** The interception path never calls the delegation resolver. *)
Lemma intercepted_calls req qs rest w :
  Request.question req = qs :: rest ->
  top_label (Question.name qs) = "eth." ->
  calls (resolve req w) = []
  \/ calls (resolve req w) =
     [CallResolveENS (Js.slice_but_last (Question.name qs))].
Proof.
  intros Hq Hl. rewrite (resolve_intercepted req qs rest w Hq Hl).
  unfold bind. rewrite cache_get_run. simpl.
  destruct (fst (ENSCache_get _ _ _ _)) as [[m|]|e]; simpl; auto.
  right. unfold await_resolveENS. simpl.
  destruct (ethClient_resolveENS _ _) as [[v|e] t]; simpl; [|reflexivity].
  unfold cache_set. simpl.
  destruct (ENSCache_set _ _ _ _ _); reflexivity.
Qed.

(** A miss followed by a registry answer [v], when the message built can
    be compressed: the message is stored and returned, after exactly one
    registry call. *)
Lemma resolve_miss req qs rest w v t bytes :
  Request.question req = qs :: rest ->
  top_label (Question.name qs) = "eth." ->
  fst (ENSCache_get (clock w) (Question.name qs) types_TXT (rs_cache (this w)))
  = Ret None ->
  ethClient_resolveENS (clock w) (Js.slice_but_last (Question.name qs))
  = (Ret v, t) ->
  Message_compress
    (synthesize qs (openalias v (Js.slice_but_last (Question.name qs))))
  = Ret bytes ->
  let bare := Js.slice_but_last (Question.name qs) in
  let msg := synthesize qs (openalias v bare) in
  res (resolve req w) = Ret msg
  /\ calls (resolve req w) = [CallResolveENS bare]
  /\ clock (world (resolve req w)) = t
  /\ rs_cache (this (world (resolve req w)))
     = {| cache :=
            LRU.set (toKey (Question.name qs) types_TXT)
              {| time := t; raw := bytes |}
              (cache (snd (ENSCache_get (clock w) (Question.name qs)
                             types_TXT (rs_cache (this w))))) |}.
Proof.
  intros Hq Hl Hmiss Hens Hraw. simpl.
  rewrite (resolve_intercepted req qs rest w Hq Hl).
  unfold bind. rewrite cache_get_run. simpl. rewrite Hmiss. simpl.
  unfold await_resolveENS. simpl. rewrite Hens. simpl.
  unfold cache_set, ENSCache_set. simpl. rewrite Hraw. simpl. auto.
Qed.

(** The same miss when the message built cannot be compressed: the error
    leaves [resolve] after the registry call, and nothing is stored. *)
Lemma resolve_store_fails req qs rest w v t e :
  Request.question req = qs :: rest ->
  top_label (Question.name qs) = "eth." ->
  fst (ENSCache_get (clock w) (Question.name qs) types_TXT (rs_cache (this w)))
  = Ret None ->
  ethClient_resolveENS (clock w) (Js.slice_but_last (Question.name qs))
  = (Ret v, t) ->
  Message_compress
    (synthesize qs (openalias v (Js.slice_but_last (Question.name qs))))
  = Throw e ->
  res (resolve req w) = Throw e
  /\ calls (resolve req w)
     = [CallResolveENS (Js.slice_but_last (Question.name qs))]
  /\ rs_cache (this (world (resolve req w)))
     = snd (ENSCache_get (clock w) (Question.name qs) types_TXT
              (rs_cache (this w))).
Proof.
  intros Hq Hl Hmiss Hens Hraw.
  rewrite (resolve_intercepted req qs rest w Hq Hl).
  unfold bind. rewrite cache_get_run. simpl. rewrite Hmiss. simpl.
  unfold await_resolveENS. simpl. rewrite Hens. simpl.
  unfold cache_set, ENSCache_set. simpl. rewrite Hraw. simpl. auto.
Qed.

End ResolveFacts.

(** C1 (amended): [resolve] routes on the rightmost label of the first
    question's name, compared with [eth.] exactly (case-sensitively): when
    the label is [eth.], the query is handled by the interception path and
    the delegation resolver is never called; for any other label, a case
    variant such as [ETH.] included, the unmodified question is passed to
    the delegation resolver, its result is returned verbatim, the cache is
    left alone and the registry client is never called. *)
Theorem resolve_routing {deps : Collaborators}
    (req : Request.t) (qs : Question.t) (rest : list Question.t) (w : World) :
  Request.question req = qs :: rest ->
  (top_label (Question.name qs) = "eth." ->
     existsb is_hns_call (calls (resolve req w)) = false)
  /\ (top_label (Question.name qs) <> "eth." ->
     res (resolve req w) = fst (hns_resolve (clock w) qs)
     /\ calls (resolve req w) = [CallHnsResolve qs]
     /\ existsb is_ens_call (calls (resolve req w)) = false
     /\ this (world (resolve req w)) = this w).
Proof.
  intros Hq. split; intros Hl.
  - destruct (intercepted_calls req qs rest w Hq Hl) as [-> | ->]; reflexivity.
  - rewrite (resolve_delegated req qs rest w Hq Hl).
    unfold await_hns_resolve.
    destruct (hns_resolve (clock w) qs) as [o t]. simpl. auto.
Qed.

(** C2 (amended): for an intercepted query that misses the cache, for
    which the registry returns an address [A] and whose synthesized message
    [msg.compress()] accepts when the message is stored, [resolve] returns a
    response with exactly one answer record, of type TXT, named as the
    query, with ttl 86000 and the single string
    ["oa1:eth recipient_address=<A>; recipient_name=<bare>;"], where
    [bare] is the query name without its trailing root dot; the question
    section holds the original question, the opcode is QUERY, the id is 0
    and the ad flag is false. *)
Theorem resolve_synthesizes {deps : Collaborators}
    (req : Request.t) (qs : Question.t) (rest : list Question.t) (w : World)
    (A : string) (t : Z) (bytes : Buffer) :
  Request.question req = qs :: rest ->
  top_label (Question.name qs) = "eth." ->
  fst (ENSCache_get (clock w) (Question.name qs) types_TXT (rs_cache (this w)))
  = Ret None ->
  ethClient_resolveENS (clock w) (Js.slice_but_last (Question.name qs))
  = (Ret (Js.Str A), t) ->
  Message_compress
    (synthesize qs
       (openalias (Js.Str A) (Js.slice_but_last (Question.name qs))))
  = Ret bytes ->
  exists bare,
    Question.name qs = bare ++ "."
    /\ res (resolve req w) =
       Ret {| Message.id := 0;
              Message.opcode := opcodes_QUERY;
              Message.ad := false;
              Message.question := [qs];
              Message.answer :=
                [ {| WireRecord.name := Question.name qs;
                     WireRecord.type := types_TXT;
                     WireRecord.ttl := 86000;
                     WireRecord.data :=
                       TXTRecord
                         ["oa1:eth recipient_address=" ++ A
                            ++ "; recipient_name=" ++ bare ++ ";"] |} ] |}.
Proof.
  intros Hq Hl Hmiss Hens Hraw.
  exists (Js.slice_but_last (Question.name qs)). split.
  - now apply bare_name.
  - destruct (resolve_miss req qs rest w _ t bytes Hq Hl Hmiss Hens Hraw)
      as [-> _].
    unfold synthesize. now rewrite clone_same, openalias_format.
Qed.

(** C3 (amended): for an intercepted query that misses the cache, for
    which the registry yields no resolvable address ([null], [undefined] or
    the empty string) and whose synthesized message [msg.compress()]
    accepts when the message is stored, [resolve] still returns normally,
    with a response whose single TXT answer embeds the placeholder the
    missing address renders to (["null"], ["undefined"] or nothing) in the
    recipient_address field; it neither throws nor returns an answerless
    response. *)
Theorem resolve_unresolved_address {deps : Collaborators}
    (req : Request.t) (qs : Question.t) (rest : list Question.t) (w : World)
    (v : Js.value) (t : Z) (bytes : Buffer) :
  Request.question req = qs :: rest ->
  top_label (Question.name qs) = "eth." ->
  fst (ENSCache_get (clock w) (Question.name qs) types_TXT (rs_cache (this w)))
  = Ret None ->
  ethClient_resolveENS (clock w) (Js.slice_but_last (Question.name qs))
  = (Ret v, t) ->
  Js.falsy v = true ->
  Message_compress
    (synthesize qs (openalias v (Js.slice_but_last (Question.name qs))))
  = Ret bytes ->
  exists placeholder,
    (placeholder = "" \/ placeholder = "null" \/ placeholder = "undefined")
    /\ res (resolve req w) =
       Ret {| Message.id := 0;
              Message.opcode := opcodes_QUERY;
              Message.ad := false;
              Message.question := [qs];
              Message.answer :=
                [ {| WireRecord.name := Question.name qs;
                     WireRecord.type := types_TXT;
                     WireRecord.ttl := 86000;
                     WireRecord.data :=
                       TXTRecord
                         ["oa1:eth recipient_address=" ++ placeholder
                            ++ "; recipient_name="
                            ++ Js.slice_but_last (Question.name qs)
                            ++ ";"] |} ] |}.
Proof.
  intros Hq Hl Hmiss Hens Hfalsy Hraw.
  exists (Js.template v). split.
  - destruct v as [s| |]; simpl in *; auto.
    left. now apply String.eqb_eq.
  - destruct (resolve_miss req qs rest w _ t bytes Hq Hl Hmiss Hens Hraw)
      as [-> _].
    unfold synthesize. now rewrite clone_same, openalias_format.
Qed.

(** C4: for an intercepted query whose (name, TXT) key has a fresh cache
    entry (stored at most 6 hours earlier, so in particular less than 6
    hours earlier, and still in the store), [resolve] returns the decoded
    cached response at once: no collaborator is called, the clock is not
    awaited on, no entry of the cache changes, and the response has the
    content of the message that was cached (given the codec decodes what it
    compressed). *)
Theorem resolve_cache_hit {deps : Collaborators}
    (req : Request.t) (qs : Question.t) (rest : list Question.t) (w : World)
    (t0 : Z) (msg : Message.t) (bytes : Buffer) :
  codec_roundtrip ->
  Request.question req = qs :: rest ->
  top_label (Question.name qs) = "eth." ->
  Message_compress msg = Ret bytes ->
  LRU.peek (toKey (Question.name qs) types_TXT) (cache (rs_cache (this w)))
  = Some {| time := t0; raw := bytes |} ->
  clock w - t0 <= 6 * 60 * 60 * 1000 ->
  res (resolve req w) = Ret msg
  /\ calls (resolve req w) = []
  /\ clock (world (resolve req w)) = clock w
  /\ forall k,
       LRU.peek k (cache (rs_cache (this (world (resolve req w)))))
       = LRU.peek k (cache (rs_cache (this w))).
Proof.
  intros Hcodec Hq Hl Hraw Hpeek Hage.
  assert (Hget : fst (ENSCache_get (clock w) (Question.name qs) types_TXT
                        (rs_cache (this w))) = Ret (Some msg)).
  { rewrite ENSCache_get_result, Hpeek. simpl. unfold freshness_window.
    destruct (Z.gtb_spec (clock w) (t0 + 6 * 60 * 60 * 1000)); [lia|].
    now rewrite (Hcodec _ _ Hraw). }
  rewrite (resolve_intercepted req qs rest w Hq Hl).
  unfold bind. rewrite cache_get_run. simpl. rewrite Hget. simpl.
  repeat split.
  intros k. rewrite ENSCache_get_store. apply peek_get.
Qed.

(** C9: [resolve] looks at the first question only: the questions after
    it have no effect on the result (response, cache and collaborator
    calls), and with an empty question section [resolve] throws instead of
    returning a response, before touching the cache or a collaborator. *)
Theorem resolve_first_question_only {deps : Collaborators}
    (id : Z) (qs : Question.t) (rest rest' : list Question.t) (w : World) :
  resolve (Request.mk id (qs :: rest)) w
  = resolve (Request.mk id (qs :: rest')) w
  /\ resolve (Request.mk id []) w
     = {| res := Throw TypeError; world := w; calls := [] |}.
Proof. split; reflexivity. Qed.


(** ** Concrete runs

    The statements above at explicit inputs, run with the collaborators of
    [Fixture]. *)

Section Runs.
#[local] Existing Instance Fixture.deps.

(** The codec of [Fixture] decodes what it compressed. *)
Lemma fixture_codec : codec_roundtrip.
Proof.
  intros m bytes. simpl. unfold Fixture.compress.
  destruct (forallb Fixture.fits (Message.answer m)); [|discriminate].
  intros [= <-]. reflexivity.
Qed.

Lemma resolve_routing_witness :
  existsb is_hns_call
    (calls (resolve (Fixture.ask "alice.eth.") Fixture.world0)) = false
  /\ calls (resolve (Fixture.ask "example.com.") Fixture.world0)
     = [CallHnsResolve (Question.mk "example.com." types_TXT 1)].
Proof.
  split.
  - apply (proj1 (resolve_routing (Fixture.ask "alice.eth.")
                    (Question.mk "alice.eth." types_TXT 1) []
                    Fixture.world0 eq_refl)).
    reflexivity.
  - apply (proj2 (resolve_routing (Fixture.ask "example.com.")
                    (Question.mk "example.com." types_TXT 1) []
                    Fixture.world0 eq_refl)).
    vm_compute. discriminate.
Defined.

(** C1 as stated fails: the top-level label of ["alice.ETH."] equals the
    reserved label under case-normalized comparison, yet the question goes
    to the delegation resolver and the registry is not consulted. *)
Lemma resolve_routing_case_counterexample :
  Js.toLowerCase (top_label "alice.ETH.") = Js.toLowerCase "eth."
  /\ calls (resolve (Fixture.ask "alice.ETH.") Fixture.world0)
     = [CallHnsResolve (Question.mk "alice.ETH." types_TXT 1)]
  /\ existsb is_hns_call
       (calls (resolve (Fixture.ask "alice.ETH.") Fixture.world0)) = true.
Proof. repeat split. Qed.

(** Scenario A. *)
Lemma resolve_synthesizes_witness :
  exists bare,
    "alice.eth." = bare ++ "."
    /\ res (resolve (Fixture.ask "alice.eth.") Fixture.world0) =
       Ret {| Message.id := 0;
              Message.opcode := opcodes_QUERY;
              Message.ad := false;
              Message.question := [Question.mk "alice.eth." types_TXT 1];
              Message.answer :=
                [ {| WireRecord.name := "alice.eth.";
                     WireRecord.type := types_TXT;
                     WireRecord.ttl := 86000;
                     WireRecord.data :=
                       TXTRecord
                         ["oa1:eth recipient_address=" ++ "0xABCD"
                            ++ "; recipient_name=" ++ bare ++ ";"] |} ] |}.
Proof.
  eapply (resolve_synthesizes (Fixture.ask "alice.eth.")
            (Question.mk "alice.eth." types_TXT 1) [] Fixture.world0
            "0xABCD" 1005); reflexivity.
Defined.

(** C2 as stated fails: the 187-character name [long_wallet] is
    intercepted, misses the cache and has an address in the registry, yet
    [resolve] returns no response: the TXT string built for it has 272
    bytes, [msg.compress()] refuses it while the message is stored, and the
    error leaves [resolve]. *)
Lemma resolve_synthesizes_counterexample :
  String.length Fixture.long_wallet = 187%nat
  /\ top_label Fixture.long_wallet = "eth."
  /\ fst (ENSCache_get (clock Fixture.world0) Fixture.long_wallet types_TXT
            (rs_cache (this Fixture.world0))) = Ret None
  /\ ethClient_resolveENS (clock Fixture.world0)
       (Js.slice_but_last Fixture.long_wallet)
     = (Ret (Js.Str "0x52908400098527886E0F7030069857D2E4169EE7"), 1005)
  /\ res (resolve (Fixture.ask Fixture.long_wallet) Fixture.world0)
     = Throw (Fault "EncodingError").
Proof. repeat split. Qed.

Lemma resolve_unresolved_address_witness :
  exists placeholder,
    (placeholder = "" \/ placeholder = "null" \/ placeholder = "undefined")
    /\ res (resolve (Fixture.ask "ghost.eth.") Fixture.world0) =
       Ret {| Message.id := 0;
              Message.opcode := opcodes_QUERY;
              Message.ad := false;
              Message.question := [Question.mk "ghost.eth." types_TXT 1];
              Message.answer :=
                [ {| WireRecord.name := "ghost.eth.";
                     WireRecord.type := types_TXT;
                     WireRecord.ttl := 86000;
                     WireRecord.data :=
                       TXTRecord
                         ["oa1:eth recipient_address=" ++ placeholder
                            ++ "; recipient_name=" ++ "ghost.eth"
                            ++ ";"] |} ] |}.
Proof.
  eapply (resolve_unresolved_address (Fixture.ask "ghost.eth.")
            (Question.mk "ghost.eth." types_TXT 1) [] Fixture.world0
            Js.Null 1005); reflexivity.
Defined.

(** C3 as stated fails: the 228-character name [long_ghost] is
    intercepted, misses the cache and has no address in the registry, yet
    [resolve] returns no response, positive or not: the TXT string built
    for it has 275 bytes, [msg.compress()] refuses it while the message is
    stored, and the error leaves [resolve]. *)
Lemma resolve_unresolved_address_counterexample :
  String.length Fixture.long_ghost = 228%nat
  /\ top_label Fixture.long_ghost = "eth."
  /\ fst (ENSCache_get (clock Fixture.world0) Fixture.long_ghost types_TXT
            (rs_cache (this Fixture.world0))) = Ret None
  /\ ethClient_resolveENS (clock Fixture.world0)
       (Js.slice_but_last Fixture.long_ghost)
     = (Ret Js.Null, 1005)
  /\ res (resolve (Fixture.ask Fixture.long_ghost) Fixture.world0)
     = Throw (Fault "EncodingError").
Proof. repeat split. Qed.

(** Scenario B: the query of Scenario A again, in the world it left. *)
Lemma resolve_cache_hit_witness :
  res (resolve (Fixture.ask "alice.eth.")
         (world (resolve (Fixture.ask "alice.eth.") Fixture.world0)))
  = res (resolve (Fixture.ask "alice.eth.") Fixture.world0)
  /\ calls (resolve (Fixture.ask "alice.eth.")
              (world (resolve (Fixture.ask "alice.eth.") Fixture.world0)))
     = [].
Proof.
  assert (Hage : clock (world (resolve (Fixture.ask "alice.eth.")
                                 Fixture.world0)) - 1005
                 <= 6 * 60 * 60 * 1000) by (vm_compute; discriminate).
  destruct (resolve_cache_hit (Fixture.ask "alice.eth.")
              (Question.mk "alice.eth." types_TXT 1) []
              (world (resolve (Fixture.ask "alice.eth.") Fixture.world0))
              1005
              (synthesize (Question.mk "alice.eth." types_TXT 1)
                 (openalias (Js.Str "0xABCD") "alice.eth"))
              (Fixture.Encoded
                 (synthesize (Question.mk "alice.eth." types_TXT 1)
                    (openalias (Js.Str "0xABCD") "alice.eth")))
              fixture_codec eq_refl eq_refl eq_refl eq_refl Hage)
    as (Hres & Hcalls & _).
  split; [rewrite Hres; reflexivity | exact Hcalls].
Defined.

Lemma cache_get_after_set_witness :
  fst (ENSCache_get 21601000 "Alice.eth." 16
         (run_ops [OpGet 5000 "alice.eth." 16;
                   OpSet 6000 "bob.eth." 16
                     (Fixture.delegated_answer (Question.mk "bob.eth." 16 1))]
            (run_op (ENSCache_new 500)
               (OpSet 1000 "Alice.eth." 16
                  (Fixture.delegated_answer
                     (Question.mk "Alice.eth." 16 1))))))
  = Ret (Some (Fixture.delegated_answer (Question.mk "Alice.eth." 16 1))).
Proof.
  eapply (cache_get_after_set (ENSCache_new 500) _ 1000).
  - exact fixture_codec.
  - reflexivity.
  - reflexivity.
  - reflexivity.
  - vm_compute. discriminate.
Defined.

Lemma cache_get_absent_witness :
  fst (ENSCache_get 2000 "alice.eth." 16
         (run_ops [OpSet 1000 "bob.eth." 16
                     (Fixture.delegated_answer (Question.mk "bob.eth." 16 1));
                   OpGet 1500 "alice.eth." 16]
            (ENSCache_new 500))) = Ret None
  /\ fst (ENSCache_get 21601001 "alice.eth." 16
            (run_ops [OpGet 5000 "alice.eth." 16]
               (run_op (ENSCache_new 500)
                  (OpSet 1000 "alice.eth." 16
                     (Fixture.delegated_answer
                        (Question.mk "alice.eth." 16 1)))))) = Ret None
  /\ exists now name type msg,
       OpSet 500 "new.eth." 16
         (Fixture.delegated_answer (Question.mk "new.eth." 16 1))
       = OpSet now name type msg
       /\ (LRU.capacity (cache Fixture.full_cache)
           <= cardinality Fixture.full_cache)%nat.
Proof.
  destruct (@cache_get_absent Fixture.deps) as (Hnever & Hstale & _ & Hevict).
  split; [|split].
  - apply Hnever. reflexivity.
  - apply (Hstale (ENSCache_new 500) _ 1000 21601001 "alice.eth." 16%N
             (Fixture.delegated_answer (Question.mk "alice.eth." 16 1)));
      [reflexivity | reflexivity | vm_compute; reflexivity].
  - apply (Hevict Fixture.full_cache _ (toKey "n0.eth." 16));
      vm_compute; reflexivity.
Defined.

(** C6 as stated fails at the boundary: when exactly 6 hours have elapsed
    since the [set], [get] still returns the cached response. *)
Lemma cache_get_six_hours_counterexample :
  21601000 - 1000 = 6 * 60 * 60 * 1000
  /\ ENSCache_set 1000 "alice.eth." 16
       (Fixture.delegated_answer (Question.mk "alice.eth." 16 1))
       (ENSCache_new 500)
     = Ret (run_op (ENSCache_new 500)
              (OpSet 1000 "alice.eth." 16
                 (Fixture.delegated_answer (Question.mk "alice.eth." 16 1))))
  /\ fst (ENSCache_get 21601000 "alice.eth." 16
            (run_op (ENSCache_new 500)
               (OpSet 1000 "alice.eth." 16
                  (Fixture.delegated_answer
                     (Question.mk "alice.eth." 16 1)))))
     = Ret (Some (Fixture.delegated_answer (Question.mk "alice.eth." 16 1))).
Proof. repeat split. Qed.

Lemma cache_key_case_insensitive_witness :
  fst (ENSCache_get 2000 "Example.ETH." 16
         (run_op (ENSCache_new 500)
            (OpSet 1000 "example.eth." 16
               (Fixture.delegated_answer
                  (Question.mk "example.eth." 16 1)))))
  = Ret (Some (Fixture.delegated_answer (Question.mk "example.eth." 16 1)))
  /\ (Js.toLowerCase "example.eth." = Js.toLowerCase "Example.ETH."
      /\ 16%N = 16%N).
Proof.
  destruct (@cache_key_case_insensitive Fixture.deps) as (Hkey & Hhit & Hex).
  split.
  - eapply (Hhit (ENSCache_new 500) _ 1000 2000 "example.eth.").
    + exact fixture_codec.
    + reflexivity.
    + reflexivity.
    + simpl. lia.
    + vm_compute. discriminate.
  - apply Hkey. apply (Hex 16%N).
Defined.

Lemma cache_cardinality_bounded_witness :
  cardinality
    (run_op Fixture.full_cache
       (OpSet 500 "new.eth." 16
          (Fixture.delegated_answer (Question.mk "new.eth." 16 1))))
  = 500%nat
  /\ exists bytes,
       Message_compress
         (Fixture.delegated_answer (Question.mk "new.eth." 16 1))
       = Ret bytes
       /\ LRU.items
            (cache
               (run_op Fixture.full_cache
                  (OpSet 500 "new.eth." 16
                     (Fixture.delegated_answer
                        (Question.mk "new.eth." 16 1)))))
          = (tl (LRU.items (cache Fixture.full_cache))
             ++ [(toKey "new.eth." 16,
                  {| time := 500; raw := bytes |})])%list.
Proof.
  eapply (proj2 (proj2 (@cache_cardinality_bounded Fixture.deps))
            Fixture.full_cache);
    vm_compute; reflexivity.
Defined.


End Runs.

(** * Further properties of the router and the cache *)

Section RouterFacts.
Context {deps : Collaborators}.

(** A hit: the decoded entry is returned and nothing else happens. *)
Lemma resolve_hit req qs rest w m :
  Request.question req = qs :: rest ->
  top_label (Question.name qs) = "eth." ->
  fst (ENSCache_get (clock w) (Question.name qs) types_TXT (rs_cache (this w)))
  = Ret (Some m) ->
  res (resolve req w) = Ret m
  /\ calls (resolve req w) = []
  /\ clock (world (resolve req w)) = clock w.
Proof.
  intros Hq Hl Hget.
  rewrite (resolve_intercepted req qs rest w Hq Hl).
  unfold bind. rewrite cache_get_run. simpl. rewrite Hget. simpl. auto.
Qed.


(** A stale entry reads as a miss. *)
Lemma stale_is_miss now name type c it :
  LRU.peek (toKey name type) (cache c) = Some it ->
  time it + 6 * 60 * 60 * 1000 < now ->
  fst (ENSCache_get now name type c) = Ret None.
Proof.
  intros Hpeek Hage. rewrite ENSCache_get_result, Hpeek.
  unfold freshness_window.
  destruct (Z.gtb_spec now (time it + 6 * 60 * 60 * 1000)); [reflexivity|lia].
Qed.

Lemma capacity_ENSCache_get now name type c :
  LRU.capacity (cache (snd (ENSCache_get now name type c)))
  = LRU.capacity (cache c).
Proof. rewrite ENSCache_get_store. apply capacity_get. Qed.

Lemma others_idem {V} k (l : list (string * V)) :
  LRU.others k (LRU.others k l) = LRU.others k l.
Proof. apply others_absent, peek_items_others_same. Qed.

Lemma others_skipn_absent {V} k n (l : list (string * V)) :
  LRU.others k (skipn n (LRU.others k l)) = skipn n (LRU.others k l).
Proof.
  apply others_absent, peek_items_None. intros v Hv.
  apply In_skipn, In_others in Hv. tauto.
Qed.

Lemma others_snoc_same {V} k (v : V) (l : list (string * V)) :
  LRU.others k (l ++ [(k, v)]) = LRU.others k l.
Proof.
  unfold LRU.others. rewrite filter_app. simpl.
  rewrite String.eqb_refl. simpl. apply app_nil_r.
Qed.

Lemma size_set_overwrite {V} k (v0 v1 : V) (c : LRU.t V) :
  (0 < LRU.capacity c)%nat ->
  LRU.size (LRU.set k v1 (LRU.set k v0 c)) = LRU.size (LRU.set k v0 c).
Proof.
  intros Hcap.
  destruct (items_set k v0 c Hcap) as [j Hj].
  pose proof (size_set k v0 c) as Hsize.
  pose proof (capacity_set k v0 c) as Hc0.
  set (c0 := LRU.set k v0 c) in *. clearbody c0.
  unfold LRU.size in Hsize.
  unfold LRU.set, LRU.compact, LRU.size. simpl.
  rewrite Hj in *. rewrite others_snoc_same, others_skipn_absent.
  rewrite !length_app in *. simpl in *. rewrite Hc0.
  replace (List.length (skipn j (LRU.others k (LRU.items c))) + 1
           - LRU.capacity c)%nat with O by lia.
  simpl. rewrite length_app. reflexivity.
Qed.

End RouterFacts.

(** X1: when the registry call fails on an intercepted miss, [resolve]
    fails with the same error after that one call, and stores nothing:
    every key of the cache reads as before. *)
Theorem resolve_registry_failure {deps : Collaborators}
    (req : Request.t) (qs : Question.t) (rest : list Question.t) (w : World)
    (e : exn) (t : Z) :
  Request.question req = qs :: rest ->
  top_label (Question.name qs) = "eth." ->
  fst (ENSCache_get (clock w) (Question.name qs) types_TXT (rs_cache (this w)))
  = Ret None ->
  ethClient_resolveENS (clock w) (Js.slice_but_last (Question.name qs))
  = (Throw e, t) ->
  res (resolve req w) = Throw e
  /\ calls (resolve req w)
     = [CallResolveENS (Js.slice_but_last (Question.name qs))]
  /\ forall k,
       LRU.peek k (cache (rs_cache (this (world (resolve req w)))))
       = LRU.peek k (cache (rs_cache (this w))).
Proof.
  intros Hq Hl Hmiss Hens.
  rewrite (resolve_intercepted req qs rest w Hq Hl).
  unfold bind. rewrite cache_get_run. simpl. rewrite Hmiss. simpl.
  unfold await_resolveENS. simpl. rewrite Hens. simpl.
  repeat split. intros k. rewrite ENSCache_get_store. apply peek_get.
Qed.


(** X3: on an intercepted miss that the registry answers, the message
    built is returned and stored exactly when [msg.compress()] accepts it.
    It is then stored under (name, TXT), whatever the record type asked
    for, and stamped with the clock read after the registry call returned,
    not with the time the query arrived; an entry that had gone stale is
    replaced this way.  When [msg.compress()] throws, [resolve] throws that
    error instead of returning the message, and every key of the cache
    reads as before. *)
Theorem resolve_stores_answer {deps : Collaborators}
    (req : Request.t) (qs : Question.t) (rest : list Question.t) (w : World)
    (v : Js.value) (t : Z) :
  Request.question req = qs :: rest ->
  top_label (Question.name qs) = "eth." ->
  (0 < LRU.capacity (cache (rs_cache (this w))))%nat ->
  fst (ENSCache_get (clock w) (Question.name qs) types_TXT (rs_cache (this w)))
  = Ret None ->
  ethClient_resolveENS (clock w) (Js.slice_but_last (Question.name qs))
  = (Ret v, t) ->
  (forall bytes,
      Message_compress
        (synthesize qs (openalias v (Js.slice_but_last (Question.name qs))))
      = Ret bytes ->
      res (resolve req w)
      = Ret (synthesize qs
               (openalias v (Js.slice_but_last (Question.name qs))))
      /\ LRU.peek (toKey (Question.name qs) types_TXT)
           (cache (rs_cache (this (world (resolve req w)))))
         = Some {| time := t; raw := bytes |}
      /\ clock (world (resolve req w)) = t)
  /\ (forall e,
      Message_compress
        (synthesize qs (openalias v (Js.slice_but_last (Question.name qs))))
      = Throw e ->
      res (resolve req w) = Throw e
      /\ forall k,
           LRU.peek k (cache (rs_cache (this (world (resolve req w)))))
           = LRU.peek k (cache (rs_cache (this w)))).
Proof.
  intros Hq Hl Hcap Hmiss Hens. split.
  - intros bytes Hraw.
    destruct (resolve_miss req qs rest w v t bytes Hq Hl Hmiss Hens Hraw)
      as (Hres & _ & Hclock & Hcache).
    simpl in Hres, Hcache. repeat split; try assumption.
    rewrite Hcache. simpl. apply peek_set.
    now rewrite capacity_ENSCache_get.
  - intros e Hraw.
    destruct (resolve_store_fails req qs rest w v t e Hq Hl Hmiss Hens Hraw)
      as (Hres & _ & Hcache).
    split; [assumption|]. intros k.
    rewrite Hcache, ENSCache_get_store. apply peek_get.
Qed.

(** X4: [resolve] keeps the cache within its capacity on every path
    (empty question section, delegation, hit, miss, registry failure), and
    never changes the capacity. *)
Theorem resolve_keeps_cache_bounded {deps : Collaborators}
    (req : Request.t) (w : World) :
  (cardinality (rs_cache (this w))
   <= LRU.capacity (cache (rs_cache (this w))))%nat ->
  (cardinality (rs_cache (this (world (resolve req w))))
   <= LRU.capacity (cache (rs_cache (this (world (resolve req w))))))%nat
  /\ LRU.capacity (cache (rs_cache (this (world (resolve req w)))))
     = LRU.capacity (cache (rs_cache (this w))).
Proof.
  intros Hbound.
  pose proof (cardinality_run_op (rs_cache (this w))) as Hop.
  unfold resolve.
  destruct (Request.question req) as [|qs rest]; [simpl; auto|].
  destruct (_ =? "eth.")%string.
  - pose proof (Hop (OpGet (clock w) (Question.name qs) types_TXT) Hbound)
      as Hget. simpl in Hget.
    pose proof (capacity_ENSCache_get (clock w) (Question.name qs) types_TXT
                  (rs_cache (this w))) as Hcap.
    unfold bind. rewrite cache_get_run. simpl.
    destruct (fst (ENSCache_get _ _ _ _)) as [[m|]|e]; simpl;
      try (split; [lia | assumption]).
    unfold await_resolveENS. simpl.
    destruct (ethClient_resolveENS _ _) as [[v|e] t]; simpl;
      try (split; [lia | assumption]).
    unfold cache_set. simpl.
    destruct (ENSCache_set _ _ _ _ _) as [c'|e] eqn:Hset; simpl;
      try (split; [lia | assumption]).
    apply ENSCache_set_ret in Hset. destruct Hset as (bytes & _ & ->).
    split; [|assumption].
    unfold cardinality. simpl.
    pose proof (size_set (toKey (Question.name qs) types_TXT)
                  {| time := t; raw := bytes |}
                  (cache (snd (ENSCache_get (clock w) (Question.name qs)
                                 types_TXT (rs_cache (this w)))))).
    lia.
  - unfold await_hns_resolve.
    destruct (hns_resolve (clock w) qs) as [o t]. simpl. auto.
Qed.

(** X5: a [set] under a key that is already stored overwrites: a later
    [get] returns the message of the last [set] and measures freshness from
    the last [set], however old the first one is, and the cache does not
    grow. *)
Theorem cache_set_overwrites {deps : Collaborators}
    (c c1 c2 : ENSCache) (t0 t1 t2 : Z) (n m : string) (type : N)
    (r0 r1 : Message.t) :
  codec_roundtrip ->
  ENSCache_set t0 n type r0 c = Ret c1 ->
  ENSCache_set t1 m type r1 c1 = Ret c2 ->
  Js.toLowerCase n = Js.toLowerCase m ->
  (0 < LRU.capacity (cache c))%nat ->
  t2 - t1 <= 6 * 60 * 60 * 1000 ->
  fst (ENSCache_get t2 n type c2) = Ret (Some r1)
  /\ cardinality c2 = cardinality c1.
Proof.
  intros Hcodec Hset0 Hset1 Hcase Hcap Hage.
  apply ENSCache_set_ret in Hset0. destruct Hset0 as (b0 & _ & ->).
  apply ENSCache_set_ret in Hset1. destruct Hset1 as (b1 & Hraw & ->).
  assert (Hkey : toKey m type = toKey n type) by (apply toKey_inj; auto).
  split.
  - rewrite ENSCache_get_result. simpl. rewrite Hkey, peek_set by assumption.
    simpl. unfold freshness_window.
    destruct (Z.gtb_spec t2 (t1 + 6 * 60 * 60 * 1000)); [lia|].
    now rewrite (Hcodec _ _ Hraw).
  - unfold cardinality. simpl. rewrite Hkey.
    now apply size_set_overwrite.
Qed.

(** * The constructor and its options *)

Lemma to_int32_mod16 (z : Z) : Dyn.to_int32 z mod 65536 = z mod 65536.
Proof.
  unfold Dyn.to_int32.
  assert (H : (z mod 2 ^ 32) mod 65536 = z mod 65536).
  { apply Z.mod_mod_divide. exists 65536. reflexivity. }
  destruct (2 ^ 31 <=? z mod 2 ^ 32); [|exact H].
  rewrite <- H.
  replace (z mod 2 ^ 32 - 2 ^ 32) with (z mod 2 ^ 32 + (-65536) * 65536) by lia.
  apply Z_mod_plus_full.
Qed.

(** The mask test accepts exactly the integers that fit 16 bits. *)
Lemma masked_ffff_iff (z : Z) :
  (Z.land (Dyn.to_int32 z) 65535 =? z) = true <-> 0 <= z <= 65535.
Proof.
  change 65535 with (Z.ones 16) at 1.
  rewrite Z.land_ones by lia. change (2 ^ 16) with 65536.
  rewrite to_int32_mod16, Z.eqb_eq. split.
  - intros H. pose proof (Z.mod_pos_bound z 65536). lia.
  - intros H. apply Z.mod_small. lia.
Qed.

Lemma and_then_ret {A B : Type} (o : outcome A) (k : A -> outcome B) (b : B) :
  and_then o k = Ret b -> exists a, o = Ret a /\ k a = Ret b.
Proof. destruct o as [a|e]; simpl; [eauto | discriminate]. Qed.

(** Inverts a successful run of fallible steps. *)
Ltac invert_ret H :=
  repeat match type of H with
  | Ret _ = Ret _ => injection H as H; try subst
  | Throw _ = Ret _ => discriminate H
  | and_then (Assert ?b) _ = Ret _ =>
      let E := fresh "Hassert" in
      destruct b eqn:E; simpl in H; [|discriminate H]
  | and_then ?o _ = Ret _ =>
      let E := fresh "Hstep" in
      destruct o eqn:E; simpl in H; [|discriminate H]
  | (if ?b then _ else _) = Ret _ =>
      let E := fresh "Hif" in destruct b eqn:E
  end.

Section OptionFacts.
Context {deps : Collaborators} {rt : Runtime}.

(** The parts of the object a block leaves alone. *)
Lemma init_logger_ret v this this' :
  init_logger v this = Ret this' ->
  fields this' = fields this /\ hns this' = hns this
  /\ ra this' = ra this /\ edns this' = edns this
  /\ dnssec this' = dnssec this /\ noAny this' = noAny this.
Proof.
  unfold init_logger. intros H.
  destruct v; simpl in H; invert_ret H; repeat split; reflexivity.
Qed.

Lemma init_key_ret v this this' :
  init_key v this = Ret this' ->
  ((Dyn.present v = false /\ key (fields this') = key (fields this))
   \/ exists b, v = Dyn.Buf b /\ Buffer_length b = 32
                /\ key (fields this') = b)
  /\ host (fields this') = host (fields this)
  /\ port (fields this') = port (fields this)
  /\ stubHost (fields this') = stubHost (fields this)
  /\ stubPort (fields this') = stubPort (fields this)
  /\ rs_cache (fields this') = rs_cache (fields this)
  /\ ethurl (fields this') = ethurl (fields this)
  /\ hns this' = hns this
  /\ ra this' = ra this /\ edns this' = edns this
  /\ dnssec this' = dnssec this /\ noAny this' = noAny this.
Proof.
  unfold init_key. intros H.
  destruct v; simpl in H; invert_ret H; simpl;
    repeat split; auto.
  right. eexists. repeat split. now apply Z.eqb_eq.
Qed.

Lemma init_host_ret v this this' :
  init_host v this = Ret this' ->
  key (fields this') = key (fields this)
  /\ port (fields this') = port (fields this)
  /\ stubHost (fields this') = stubHost (fields this)
  /\ stubPort (fields this') = stubPort (fields this)
  /\ rs_cache (fields this') = rs_cache (fields this)
  /\ ethurl (fields this') = ethurl (fields this)
  /\ hns this' = hns this
  /\ ra this' = ra this /\ edns this' = edns this
  /\ dnssec this' = dnssec this /\ noAny this' = noAny this.
Proof.
  unfold init_host. intros H.
  destruct v; simpl in H; invert_ret H; simpl; repeat split; auto.
Qed.

Lemma init_port_ret v this this' :
  init_port v this = Ret this' ->
  ((Dyn.present v = false /\ port (fields this') = port (fields this))
   \/ exists z, v = Dyn.Num z /\ 1 <= z <= 65535
                /\ port (fields this') = z)
  /\ key (fields this') = key (fields this)
  /\ host (fields this') = host (fields this)
  /\ stubHost (fields this') = stubHost (fields this)
  /\ stubPort (fields this') = stubPort (fields this)
  /\ rs_cache (fields this') = rs_cache (fields this)
  /\ ethurl (fields this') = ethurl (fields this)
  /\ hns this' = hns this
  /\ ra this' = ra this /\ edns this' = edns this
  /\ dnssec this' = dnssec this /\ noAny this' = noAny this.
Proof.
  unfold init_port. intros H.
  destruct v; simpl in H; invert_ret H; simpl; repeat split; auto.
  right. eexists. repeat split; try reflexivity.
  - apply masked_ffff_iff in Hassert. apply negb_true_iff, Z.eqb_neq in Hassert0.
    lia.
  - apply masked_ffff_iff in Hassert. lia.
Qed.

Lemma init_stubHost_ret v this this' :
  init_stubHost v this = Ret this' ->
  ((Dyn.present v = false /\ stubHost (fields this') = stubHost (fields this))
   \/ exists s h, v = Dyn.Str s /\ IP_normalize s = Ret h
                  /\ stubHost (fields this')
                     = if ((h =? "0.0.0.0") || (h =? "::"))%string
                       then "127.0.0.1" else h)
  /\ key (fields this') = key (fields this)
  /\ host (fields this') = host (fields this)
  /\ port (fields this') = port (fields this)
  /\ stubPort (fields this') = stubPort (fields this)
  /\ rs_cache (fields this') = rs_cache (fields this)
  /\ ethurl (fields this') = ethurl (fields this)
  /\ hns this' = hns this
  /\ ra this' = ra this /\ edns this' = edns this
  /\ dnssec this' = dnssec this /\ noAny this' = noAny this.
Proof.
  unfold init_stubHost. intros H.
  destruct v; simpl in H; invert_ret H; simpl; repeat split; auto.
  right. eauto.
Qed.

Lemma init_stubPort_ret v this this' :
  init_stubPort v this = Ret this' ->
  ((Dyn.present v = false /\ stubPort (fields this') = stubPort (fields this))
   \/ exists z, v = Dyn.Num z /\ 1 <= z <= 65535
                /\ stubPort (fields this') = z)
  /\ key (fields this') = key (fields this)
  /\ host (fields this') = host (fields this)
  /\ port (fields this') = port (fields this)
  /\ stubHost (fields this') = stubHost (fields this)
  /\ rs_cache (fields this') = rs_cache (fields this)
  /\ ethurl (fields this') = ethurl (fields this)
  /\ hns this' = hns this
  /\ ra this' = ra this /\ edns this' = edns this
  /\ dnssec this' = dnssec this /\ noAny this' = noAny this.
Proof.
  unfold init_stubPort. intros H.
  destruct v; simpl in H; invert_ret H; simpl; repeat split; auto.
  right. eexists. repeat split; try reflexivity.
  - apply masked_ffff_iff in Hassert. apply negb_true_iff, Z.eqb_neq in Hassert0.
    lia.
  - apply masked_ffff_iff in Hassert. lia.
Qed.

Lemma init_noUnbound_ret v this this' :
  init_noUnbound v this = Ret this' ->
  ((v = Dyn.Bool true /\ hns this' = RecursiveResolver)
   \/ ((v = Dyn.Bool false \/ Dyn.present v = false)
       /\ hns this' = hns this))
  /\ fields this' = fields this
  /\ ra this' = ra this /\ edns this' = edns this
  /\ dnssec this' = dnssec this /\ noAny this' = noAny this.
Proof.
  unfold init_noUnbound. intros H.
  destruct v as [| |[|]| | | | |]; simpl in H; invert_ret H; simpl;
    repeat split; auto.
Qed.

Lemma init_ethurl_ret v this this' :
  init_ethurl v this = Ret this' ->
  key (fields this') = key (fields this)
  /\ host (fields this') = host (fields this)
  /\ port (fields this') = port (fields this)
  /\ stubHost (fields this') = stubHost (fields this)
  /\ stubPort (fields this') = stubPort (fields this)
  /\ rs_cache (fields this') = rs_cache (fields this)
  /\ hns this' = hns this
  /\ ra this' = ra this /\ edns this' = edns this
  /\ dnssec this' = dnssec this /\ noAny this' = noAny this.
Proof.
  unfold init_ethurl. intros H.
  destruct v; simpl in H; invert_ret H; simpl; repeat split; auto.
Qed.

(** A successful [initOptions] is a successful run of its blocks. *)
Lemma initOptions_ret options this this' :
  initOptions (Some options) this = Ret this' ->
  exists t1 t2 t3 t4 t5 t6 t7,
    init_logger (Options.logger options) this = Ret t1
    /\ init_key (Options.key options) t1 = Ret t2
    /\ init_host (Options.host options) t2 = Ret t3
    /\ init_port (Options.port options) t3 = Ret t4
    /\ init_stubHost (Options.stubHost options) t4 = Ret t5
    /\ init_stubPort (Options.stubPort options) t5 = Ret t6
    /\ init_noUnbound (Options.noUnbound options) t6 = Ret t7
    /\ init_ethurl (Options.ethurl options) t7 = Ret this'.
Proof.
  unfold initOptions. intros H.
  apply and_then_ret in H. destruct H as (_ & _ & H).
  apply and_then_ret in H. destruct H as (t1 & H1 & H).
  apply and_then_ret in H. destruct H as (t2 & H2 & H).
  apply and_then_ret in H. destruct H as (t3 & H3 & H).
  apply and_then_ret in H. destruct H as (t4 & H4 & H).
  apply and_then_ret in H. destruct H as (t5 & H5 & H).
  apply and_then_ret in H. destruct H as (t6 & H6 & H).
  apply and_then_ret in H. destruct H as (t7 & H7 & H).
  apply and_then_ret in H. destruct H as (t8 & H8 & H).
  injection H as <-. exists t1, t2, t3, t4, t5, t6, t7. auto 10.
Qed.

End OptionFacts.

(** Splits a successful [initOptions] into the facts of its blocks. *)
Ltac open_initOptions H :=
  let t1 := fresh "t1" in let t2 := fresh "t2" in let t3 := fresh "t3" in
  let t4 := fresh "t4" in let t5 := fresh "t5" in let t6 := fresh "t6" in
  let t7 := fresh "t7" in
  apply initOptions_ret in H;
  destruct H as (t1 & t2 & t3 & t4 & t5 & t6 & t7
                 & Hlogger & Hkey & Hhost & Hport & HstubHost & HstubPort
                 & HnoUnbound & Hethurl);
  apply init_logger_ret in Hlogger;
  apply init_key_ret in Hkey;
  apply init_host_ret in Hhost;
  apply init_port_ret in Hport;
  apply init_stubHost_ret in HstubHost;
  apply init_stubPort_ret in HstubPort;
  apply init_noUnbound_ret in HnoUnbound;
  apply init_ethurl_ret in Hethurl;
  decompose [and] Hlogger; decompose [and] Hkey; decompose [and] Hhost;
  decompose [and] Hport; decompose [and] HstubHost;
  decompose [and] HstubPort; decompose [and] HnoUnbound;
  decompose [and] Hethurl;
  clear Hlogger Hkey Hhost Hport HstubHost HstubPort HnoUnbound Hethurl.

(** X6: [initOptions] stores a [port] (and a [stubPort]) only when it is
    an integer between 1 and 65535: whenever it returns, a port that was
    given is such an integer and has become the server's port, and a port
    that was not given leaves the server's port as it was. *)
Theorem initOptions_ports {deps : Collaborators} {rt : Runtime}
    (options : Options.t) (this this' : Instance) :
  initOptions (Some options) this = Ret this' ->
  ((Dyn.present (Options.port options) = false
    /\ port (fields this') = port (fields this))
   \/ exists z, Options.port options = Dyn.Num z /\ 1 <= z <= 65535
                /\ port (fields this') = z)
  /\ ((Dyn.present (Options.stubPort options) = false
       /\ stubPort (fields this') = stubPort (fields this))
      \/ exists z, Options.stubPort options = Dyn.Num z /\ 1 <= z <= 65535
                   /\ stubPort (fields this') = z).
Proof.
  intros H. open_initOptions H.
  split.
  - match goal with
    | Hp : _ \/ exists z, Options.port options = _ /\ _ |- _ =>
        destruct Hp as [[Habs Hp]|(z & Hz & Hr & Hp)]
    end.
    + left. split; [assumption|]. congruence.
    + right. exists z. repeat split; try assumption; try lia. congruence.
  - match goal with
    | Hp : _ \/ exists z, Options.stubPort options = _ /\ _ |- _ =>
        destruct Hp as [[Habs Hp]|(z & Hz & Hr & Hp)]
    end.
    + left. split; [assumption|]. congruence.
    + right. exists z. repeat split; try assumption; try lia. congruence.
Qed.

(** X7: [initOptions] stores a [key] only when it is a buffer of exactly
    32 bytes: whenever it returns, a key that was given is such a buffer
    and has become the server's key, and without one the key stays the
    generated one. *)
Theorem initOptions_key {deps : Collaborators} {rt : Runtime}
    (options : Options.t) (this this' : Instance) :
  initOptions (Some options) this = Ret this' ->
  (Dyn.present (Options.key options) = false
   /\ key (fields this') = key (fields this))
  \/ exists b, Options.key options = Dyn.Buf b /\ Buffer_length b = 32
               /\ key (fields this') = b.
Proof.
  intros H. open_initOptions H.
  match goal with
  | Hk : _ \/ exists b, Options.key options = _ /\ _ |- _ =>
      destruct Hk as [[Habs Hk]|(b & Hb & Hlen & Hk)]
  end.
  - left. split; [assumption|]. congruence.
  - right. exists b. repeat split; try assumption. congruence.
Qed.

(** X8: [initOptions] never leaves a wildcard stub host it was given: a
    [stubHost] that normalizes to [0.0.0.0] or [::] is stored as
    [127.0.0.1], any other is stored as normalized; the listening [host]
    gets no such treatment. *)
Theorem initOptions_stubHost {deps : Collaborators} {rt : Runtime}
    (options : Options.t) (this this' : Instance) :
  initOptions (Some options) this = Ret this' ->
  Dyn.present (Options.stubHost options) = true ->
  exists s h,
    Options.stubHost options = Dyn.Str s
    /\ IP_normalize s = Ret h
    /\ stubHost (fields this') <> "0.0.0.0"
    /\ stubHost (fields this') <> "::"
    /\ (h = "0.0.0.0" \/ h = "::" -> stubHost (fields this') = "127.0.0.1")
    /\ (h <> "0.0.0.0" -> h <> "::" -> stubHost (fields this') = h).
Proof.
  intros H Hgiven. open_initOptions H.
  match goal with
  | Hs : _ \/ exists s h, Options.stubHost options = _ /\ _ |- _ =>
      destruct Hs as [[Habs Hs]|(s & h & Hv & Hn & Hs)]
  end; [congruence|].
  assert (E : stubHost (fields this')
              = if ((h =? "0.0.0.0") || (h =? "::"))%string
                then "127.0.0.1" else h) by congruence.
  exists s, h. rewrite E.
  destruct (String.eqb_spec h "0.0.0.0") as [->|Hne4]; simpl.
  - repeat split; auto; try discriminate. congruence.
  - destruct (String.eqb_spec h "::") as [->|Hne6]; simpl.
    + repeat split; auto; try discriminate. intros; congruence.
    + repeat split; auto. intros [|]; contradiction.
Qed.

(** X9: [initOptions] switches the delegation resolver to the
    non-validating class exactly when [noUnbound] is the boolean [true];
    with [false], or without the option, the resolver stays what it was
    (anything that is not a boolean is rejected). *)
Theorem initOptions_noUnbound {deps : Collaborators} {rt : Runtime}
    (options : Options.t) (this this' : Instance) :
  initOptions (Some options) this = Ret this' ->
  (Options.noUnbound options = Dyn.Bool true /\ hns this' = RecursiveResolver)
  \/ ((Options.noUnbound options = Dyn.Bool false
       \/ Dyn.present (Options.noUnbound options) = false)
      /\ hns this' = hns this).
Proof.
  intros H. open_initOptions H.
  match goal with
  | Hn : _ \/ (_ /\ hns _ = hns _) |- _ =>
      destruct Hn as [[Hv Hn]|[Hv Hn]]
  end.
  - left. split; [assumption|]. congruence.
  - right. split; [assumption|]. congruence.
Qed.

(** X10: every server the constructor returns, with or without options,
    listens on a port between 1 and 65535, stubs to a port between 1 and
    65535 on a host that is not a wildcard, starts with an empty cache of
    capacity 500, has its resolver stubbed to exactly that host and port
    and its registry client built with the url stored in [ethurl], and
    keeps the four protocol flags set. *)
Theorem construct_invariants {deps : Collaborators} {rt : Runtime}
    (generated : Buffer) (options : option Options.t) (c : Constructed) :
  construct generated options = Ret c ->
  1 <= port (fields (self c)) <= 65535
  /\ 1 <= stubPort (fields (self c)) <= 65535
  /\ stubHost (fields (self c)) <> "0.0.0.0"
  /\ stubHost (fields (self c)) <> "::"
  /\ rs_cache (fields (self c)) = ENSCache_new 500
  /\ stub c = (stubHost (fields (self c)), stubPort (fields (self c)))
  /\ ethClient_url c = ethurl (fields (self c))
  /\ (ra (self c) = true /\ edns (self c) = true
      /\ dnssec (self c) = true /\ noAny (self c) = true).
Proof.
  unfold construct. intros H.
  apply and_then_ret in H. destruct H as (this' & Hinit & H).
  apply and_then_ret in H. destruct H as (_ & _ & H).
  injection H as <-. simpl.
  destruct options as [options|].
  - assert (Edef : port (fields (defaults generated)) = 5301
                   /\ stubPort (fields (defaults generated)) = 5300
                   /\ stubHost (fields (defaults generated)) = "127.0.0.1"
                   /\ rs_cache (fields (defaults generated)) = ENSCache_new 500
                   /\ ra (defaults generated) = true
                   /\ edns (defaults generated) = true
                   /\ dnssec (defaults generated) = true
                   /\ noAny (defaults generated) = true)
      by (repeat split).
    destruct Edef as (Eport & EstubPort & EstubHost & Ecache
                      & Era & Eedns & Ednssec & EnoAny).
    open_initOptions Hinit.
    assert (Hport : 1 <= port (fields this') <= 65535).
    { match goal with
      | Hp : _ \/ exists z, Options.port options = _ /\ _ |- _ =>
          destruct Hp as [[_ Hp]|(z & _ & Hz & Hp)]
      end.
      - replace (port (fields this')) with 5301 by congruence. lia.
      - replace (port (fields this')) with z by congruence. lia. }
    assert (HstubPort : 1 <= stubPort (fields this') <= 65535).
    { match goal with
      | Hp : _ \/ exists z, Options.stubPort options = _ /\ _ |- _ =>
          destruct Hp as [[_ Hp]|(z & _ & Hz & Hp)]
      end.
      - replace (stubPort (fields this')) with 5300 by congruence. lia.
      - replace (stubPort (fields this')) with z by congruence. lia. }
    assert (HstubHost : stubHost (fields this') <> "0.0.0.0"
                        /\ stubHost (fields this') <> "::").
    { match goal with
      | Hs : _ \/ exists s h, Options.stubHost options = _ /\ _ |- _ =>
          destruct Hs as [[_ Hs]|(s & h & _ & _ & Hs)]
      end.
      - replace (stubHost (fields this')) with "127.0.0.1" by congruence.
        split; discriminate.
      - replace (stubHost (fields this'))
          with (if ((h =? "0.0.0.0") || (h =? "::"))%string
                then "127.0.0.1" else h) by congruence.
        destruct (String.eqb_spec h "0.0.0.0") as [E4|Hne4]; simpl;
          [split; discriminate|].
        destruct (String.eqb_spec h "::") as [E6|Hne6]; simpl;
          [split; discriminate | split; assumption]. }
    destruct HstubHost as [Hne4 Hne6].
    repeat split; try lia; try assumption; try congruence.
  - injection Hinit as <-. simpl.
    repeat split; try lia; try discriminate.
Qed.

(** * Lifecycle and logging *)

(** X11: [open] binds the transport only after the delegation resolver
    has opened, and always on the server's own port and host, whatever
    arguments it is called with: if the resolver fails to open, nothing
    else happens and the error is passed on; if the transport fails to
    bind, no listening line is logged; [open] succeeds exactly when both
    succeed. *)
Theorem open_order {deps : Collaborators} {rt : Runtime}
    (this : Instance) (args : list Dyn.t) :
  (forall p h, In (ServerOpen p h) (fst (open this args)) ->
     hns_open (hns this) = Ret tt
     /\ p = port (fields this) /\ h = host (fields this))
  /\ (forall e, hns_open (hns this) = Throw e ->
        open this args = ([HnsOpen], Throw e))
  /\ (forall e, hns_open (hns this) = Ret tt ->
        DNSServer_open (port (fields this)) (host (fields this)) = Throw e ->
        open this args
        = ([HnsOpen; ServerOpen (port (fields this)) (host (fields this))],
           Throw e))
  /\ (snd (open this args) = Ret tt <->
        hns_open (hns this) = Ret tt
        /\ DNSServer_open (port (fields this)) (host (fields this)) = Ret tt)
  /\ open this args = open this [].
Proof.
  unfold open, seq_run, perform. simpl.
  destruct (hns_open (hns this)) as [[]|e1]; simpl;
    [destruct (DNSServer_open (port (fields this)) (host (fields this)))
       as [[]|e2]; simpl|];
    (split; [|split; [|split; [|split]]]);
    try reflexivity; try discriminate; try tauto; try congruence;
    try (intros p h Hin;
         repeat (destruct Hin as [Hin|Hin]; try discriminate Hin);
         try contradiction; injection Hin as <- <-; auto);
    try (split; [discriminate | intros [Ha Hb]; discriminate]).
Qed.

(** X12: [close] closes the transport first and closes the delegation
    resolver only once that has succeeded: if closing the transport fails,
    the error is passed on and the resolver is left open; otherwise the
    result of [close] is the result of closing the resolver. *)
Theorem close_order {deps : Collaborators} {rt : Runtime} (this : Instance) :
  (exists rest, fst (close this) = ServerClose :: rest)
  /\ (forall e, DNSServer_close = Throw e ->
        close this = ([ServerClose], Throw e))
  /\ (DNSServer_close = Ret tt ->
        close this = ([ServerClose; HnsClose], hns_close (hns this)))
  /\ (In HnsClose (fst (close this)) <-> DNSServer_close = Ret tt).
Proof.
  unfold close, seq_run, perform. simpl.
  destruct DNSServer_close as [[]|e1]; simpl;
    (split; [eauto | split; [|split; [|split]]]);
    try reflexivity; try discriminate; try congruence; auto.
  - intros Hin. repeat (destruct Hin as [Hin|Hin]; try discriminate Hin).
    contradiction.
Qed.

Lemma split_lines_nonempty (s : string) : JsText.split_lines s <> [].
Proof.
  induction s as [|c r IH]; simpl; [discriminate|].
  destruct (Ascii.eqb c JsText.LF); [discriminate|].
  destruct (JsText.split_lines r); discriminate.
Qed.

(** Joining the pieces with line feeds gives the text back. *)
Lemma concat_split_lines (s : string) :
  String.concat (String JsText.LF "") (JsText.split_lines s) = s.
Proof.
  induction s as [|c r IH]; simpl; [reflexivity|].
  pose proof (split_lines_nonempty r) as Hne.
  destruct (Ascii.eqb_spec c JsText.LF) as [->|_].
  - destruct (JsText.split_lines r) as [|p ps]; [contradiction|].
    simpl in *. now rewrite IH.
  - destruct (JsText.split_lines r) as [|p ps]; [contradiction|].
    simpl in *. destruct ps; simpl in *; now rewrite <- IH.
Qed.

Lemma split_lines_no_LF (s : string) :
  Forall (fun line => JsText.has_LF line = false) (JsText.split_lines s).
Proof.
  induction s as [|c r IH]; simpl.
  - constructor; [reflexivity | constructor].
  - destruct (Ascii.eqb c JsText.LF) eqn:E.
    + constructor; [reflexivity | assumption].
    + destruct (JsText.split_lines r) as [|p ps].
      * constructor; [simpl; now rewrite E | constructor].
      * inversion IH; subst. constructor; [|assumption].
        simpl. now rewrite E.
Qed.

(** X13: [logMessage] is silent below log level 5, and so is a [query]
    event; from level 5 on it logs the prefix and then the trimmed text of
    the message line by line: at least one line, none holding a line feed,
    and the lines joined by line feeds are the trimmed text. *)
Theorem logMessage_lines {deps : Collaborators} {rt : Runtime}
    (this : Instance) (prefix : string) (msg res : Message.t) :
  (Logger_level (logger this) < 5 ->
     logMessage this prefix msg = [] /\ on_query this msg res = [])
  /\ (5 <= Logger_level (logger this) ->
     exists lines,
       logMessage this prefix msg = Spam prefix :: map Spam lines
       /\ lines <> []
       /\ Forall (fun line => JsText.has_LF line = false) lines
       /\ String.concat (String JsText.LF "") lines
          = JsText.trim (Message_toString msg)).
Proof.
  unfold on_query, logMessage. split; intros Hlevel.
  - destruct (Z.ltb_spec (Logger_level (logger this)) 5); [auto|lia].
  - destruct (Z.ltb_spec (Logger_level (logger this)) 5); [lia|].
    exists (JsText.split_lines (JsText.trim (Message_toString msg))).
    repeat split.
    + apply split_lines_nonempty.
    + apply split_lines_no_LF.
    + apply concat_split_lines.
Qed.

(** X14: a [get] makes the entry it finds the most recently used one,
    even when it masks the entry as stale: in a cache of capacity 2 or
    more, the next [set] under another key does not evict it. *)
Theorem cache_get_protects_entry {deps : Collaborators}
    (c c' : ENSCache) (t0 t1 : Z) (n n' : string) (type type' : N)
    (msg : Message.t) :
  LRU.has (toKey n type) (cache c) = true ->
  (2 <= LRU.capacity (cache c))%nat ->
  toKey n' type' <> toKey n type ->
  ENSCache_set t1 n' type' msg (snd (ENSCache_get t0 n type c)) = Ret c' ->
  LRU.peek (toKey n type) (cache c') = LRU.peek (toKey n type) (cache c).
Proof.
  intros Hhas Hcap Hne Hset.
  apply ENSCache_set_ret in Hset. destruct Hset as (bytes & _ & ->).
  set (k := toKey n type) in *. set (k' := toKey n' type') in *.
  simpl. rewrite ENSCache_get_store. fold k k'.
  unfold LRU.has in Hhas.
  destruct (LRU.peek k (cache c)) as [v|] eqn:Hpeek; [|discriminate].
  unfold LRU.get. rewrite Hpeek. simpl.
  unfold LRU.set, LRU.compact, LRU.size, LRU.peek. simpl.
  set (v' := {| time := t1; raw := bytes |}).
  set (l := LRU.others k (LRU.items (cache c))).
  assert (Ho : LRU.others k' (l ++ [(k, v)]) = (LRU.others k' l ++ [(k, v)])%list).
  { unfold LRU.others. rewrite filter_app. simpl.
    destruct (String.eqb_spec k k') as [E|_]; [now symmetry in E|reflexivity]. }
  rewrite Ho, <- app_assoc. simpl.
  rewrite !length_app. simpl.
  rewrite skipn_app.
  replace (List.length (LRU.others k' l) + 2
           - LRU.capacity (cache c) - List.length (LRU.others k' l))%nat
    with O by lia.
  simpl. rewrite peek_items_app.
  replace (LRU.peek_items k (skipn _ (LRU.others k' l))) with (@None item).
  - simpl. now rewrite String.eqb_refl.
  - symmetry. apply peek_items_None. intros x Hx.
    apply In_skipn, In_others in Hx. destruct Hx as [Hx _].
    apply In_others in Hx. tauto.
Qed.

(** ** More concrete runs *)

Section MoreRuns.
#[local] Existing Instance Fixture.deps.
#[local] Existing Instance Harness.rt.

Lemma resolve_registry_failure_witness :
  res (resolve (Fixture.ask "zed.eth.") Fixture.world0) = Throw (Fault "rpc")
  /\ calls (resolve (Fixture.ask "zed.eth.") Fixture.world0)
     = [CallResolveENS "zed.eth"]
  /\ forall k,
       LRU.peek k
         (cache (rs_cache
                   (this (world (resolve (Fixture.ask "zed.eth.")
                                   Fixture.world0)))))
       = LRU.peek k (cache (rs_cache (this Fixture.world0))).
Proof.
  apply (resolve_registry_failure (Fixture.ask "zed.eth.")
           (Question.mk "zed.eth." types_TXT 1) [] Fixture.world0
           (Fault "rpc") 1005); reflexivity.
Defined.


(** The entry of Scenario A, gone stale, is replaced. *)
Lemma resolve_stores_answer_witness :
  LRU.peek (toKey "alice.eth." types_TXT)
    (cache (rs_cache (this (world
       (resolve (Fixture.ask "alice.eth.")
          {| this := this (world (resolve (Fixture.ask "alice.eth.")
                                    Fixture.world0));
             clock := 21601006 |})))))
  = Some {| time := 21601011;
            raw := Fixture.Encoded
                     (synthesize (Question.mk "alice.eth." types_TXT 1)
                        (openalias (Js.Str "0xABCD") "alice.eth")) |}
  /\ res (resolve (Fixture.ask Fixture.long_wallet) Fixture.world0)
     = Throw (Fault "EncodingError").
Proof.
  assert (Hcap : (0 < LRU.capacity (cache (rs_cache (this Fixture.world0))))%nat)
    by (vm_compute; lia).
  split.
  - apply (proj1 (resolve_stores_answer (Fixture.ask "alice.eth.")
                    (Question.mk "alice.eth." types_TXT 1) []
                    {| this := this (world (resolve (Fixture.ask "alice.eth.")
                                              Fixture.world0));
                       clock := 21601006 |}
                    (Js.Str "0xABCD") 21601011
                    eq_refl eq_refl Hcap eq_refl eq_refl)).
    reflexivity.
  - apply (proj2 (resolve_stores_answer (Fixture.ask Fixture.long_wallet)
                    (Question.mk Fixture.long_wallet types_TXT 1) []
                    Fixture.world0
                    (Js.Str "0x52908400098527886E0F7030069857D2E4169EE7")
                    1005
                    eq_refl eq_refl Hcap eq_refl eq_refl)).
    reflexivity.
Defined.

Lemma resolve_keeps_cache_bounded_witness :
  (cardinality (rs_cache (this (world
      (resolve (Fixture.ask "alice.eth.") Fixture.world0)))) <= 500)%nat.
Proof.
  apply (resolve_keeps_cache_bounded (Fixture.ask "alice.eth.") Fixture.world0).
  vm_compute. lia.
Defined.

Lemma cache_set_overwrites_witness :
  fst (ENSCache_get 90000000 "alice.eth." 16
         (run_ops [OpSet 1000 "alice.eth." 16
                     (Fixture.delegated_answer
                        (Question.mk "alice.eth." 16 1));
                   OpSet 80000000 "ALICE.eth." 16
                     (Fixture.delegated_answer
                        (Question.mk "ALICE.eth." 16 1))]
            (ENSCache_new 500)))
  = Ret (Some (Fixture.delegated_answer (Question.mk "ALICE.eth." 16 1))).
Proof.
  apply (cache_set_overwrites (ENSCache_new 500)
           (run_ops [OpSet 1000 "alice.eth." 16
                       (Fixture.delegated_answer
                          (Question.mk "alice.eth." 16 1))]
              (ENSCache_new 500))
           _ 1000 80000000 90000000
           "alice.eth." "ALICE.eth." 16
           (Fixture.delegated_answer (Question.mk "alice.eth." 16 1))
           (Fixture.delegated_answer (Question.mk "ALICE.eth." 16 1))).
  - exact fixture_codec.
  - reflexivity.
  - reflexivity.
  - reflexivity.
  - vm_compute. lia.
  - vm_compute. discriminate.
Defined.

Lemma cache_get_protects_entry_witness :
  LRU.peek (toKey "n0.eth." 16)
    (cache (run_op (snd (ENSCache_get 30000000 "n0.eth." 16
                           Fixture.full_cache))
              (OpSet 600 "new.eth." 16
                 (Fixture.delegated_answer (Question.mk "new.eth." 16 1)))))
  = LRU.peek (toKey "n0.eth." 16) (cache Fixture.full_cache).
Proof.
  apply (cache_get_protects_entry Fixture.full_cache _ 30000000 600
           "n0.eth." "new.eth." 16 16
           (Fixture.delegated_answer (Question.mk "new.eth." 16 1))).
  - vm_compute. reflexivity.
  - vm_compute. lia.
  - vm_compute. discriminate.
  - vm_compute. reflexivity.
Defined.

Lemma initOptions_ports_witness :
  port (fields Harness.fresh) = 5301
  /\ exists this',
       initOptions (Some Harness.options) Harness.fresh
       = Ret this'
       /\ port (fields this') = 5350 /\ stubPort (fields this') = 5349.
Proof.
  split; [reflexivity|].
  destruct (initOptions (Some Harness.options) Harness.fresh)
    as [this'|e] eqn:E; [|vm_compute in E; discriminate E].
  exists this'. split; [reflexivity|].
  destruct (initOptions_ports Harness.options _ _ E) as [Hp Hsp].
  destruct Hp as [[Habs _]|(z & Hz & _ & Hp)]; [discriminate Habs|].
  destruct Hsp as [[Habs _]|(z' & Hz' & _ & Hsp)]; [discriminate Habs|].
  injection Hz as <-. injection Hz' as <-. auto.
Defined.

Lemma initOptions_key_witness :
  exists this',
    initOptions (Some Harness.options) Harness.fresh
    = Ret this'
    /\ key (fields this') = Harness.key32.
Proof.
  destruct (initOptions (Some Harness.options) Harness.fresh)
    as [this'|e] eqn:E; [|vm_compute in E; discriminate E].
  exists this'. split; [reflexivity|].
  destruct (initOptions_key Harness.options _ _ E)
    as [[Habs _]|(b & Hb & _ & Hk)]; [discriminate Habs|].
  injection Hb as <-. assumption.
Defined.

Lemma initOptions_stubHost_witness :
  exists this',
    initOptions (Some Harness.options) Harness.fresh
    = Ret this'
    /\ stubHost (fields this') = "127.0.0.1".
Proof.
  destruct (initOptions (Some Harness.options) Harness.fresh)
    as [this'|e] eqn:E; [|vm_compute in E; discriminate E].
  exists this'. split; [reflexivity|].
  destruct (initOptions_stubHost Harness.options _ _ E eq_refl)
    as (s & h & Hs & Hh & _ & _ & Hwild & _).
  injection Hs as <-. injection Hh as <-. apply Hwild. now left.
Defined.

Lemma initOptions_noUnbound_witness :
  exists this',
    initOptions (Some Harness.options) Harness.fresh
    = Ret this'
    /\ hns this' = RecursiveResolver.
Proof.
  destruct (initOptions (Some Harness.options) Harness.fresh)
    as [this'|e] eqn:E; [|vm_compute in E; discriminate E].
  exists this'. split; [reflexivity|].
  destruct (initOptions_noUnbound Harness.options _ _ E)
    as [[_ H]|[[Hv|Hv] _]]; [assumption | discriminate Hv | discriminate Hv].
Defined.

Lemma construct_invariants_witness :
  exists c,
    @construct Fixture.deps Harness.rt (Fixture.Bytes "g") (Some Harness.options) = Ret c
    /\ 1 <= port (fields (self c)) <= 65535
    /\ stubHost (fields (self c)) <> "0.0.0.0"
    /\ rs_cache (fields (self c)) = ENSCache_new 500.
Proof.
  destruct (@construct Fixture.deps Harness.rt (Fixture.Bytes "g") (Some Harness.options))
    as [c|e] eqn:E; [|vm_compute in E; discriminate E].
  exists c. split; [reflexivity|].
  destruct (construct_invariants _ _ _ E) as (Hp & _ & Hw & _ & Hc & _).
  auto.
Defined.

Lemma open_order_witness :
  open Harness.fresh [Dyn.Num 53; Dyn.Str "0.0.0.0"]
  = open Harness.fresh []
  /\ (snd (open Harness.fresh []) = Ret tt).
Proof.
  destruct (open_order Harness.fresh
              [Dyn.Num 53; Dyn.Str "0.0.0.0"]) as (_ & _ & _ & _ & Hargs).
  destruct (open_order Harness.fresh [])
    as (_ & _ & _ & Hok & _).
  split; [exact Hargs|].
  apply Hok. split; reflexivity.
Defined.

Lemma close_order_witness :
  close Harness.fresh = ([ServerClose; HnsClose], Ret tt).
Proof.
  destruct (close_order Harness.fresh) as (_ & _ & Hok & _).
  apply Hok. reflexivity.
Defined.

Lemma logMessage_lines_witness :
  logMessage Harness.fresh "DNS Request:"
    (Fixture.delegated_answer (Question.mk "a." 16 1)) = []
  /\ exists lines,
       logMessage (with_logger Harness.fresh ("rs", 5))
         "DNS Request:" (Fixture.delegated_answer (Question.mk "a." 16 1))
       = Spam "DNS Request:" :: map Spam lines
       /\ lines <> [].
Proof.
  split.
  - apply (logMessage_lines Harness.fresh "DNS Request:"
             (Fixture.delegated_answer (Question.mk "a." 16 1))
             (Fixture.delegated_answer (Question.mk "a." 16 1))).
    vm_compute. reflexivity.
  - destruct (proj2 (logMessage_lines
                       (with_logger Harness.fresh ("rs", 5))
                       "DNS Request:"
                       (Fixture.delegated_answer (Question.mk "a." 16 1))
                       (Fixture.delegated_answer (Question.mk "a." 16 1))))
      as (lines & Hl & Hne & _).
    + vm_compute. discriminate.
    + exists lines. split; assumption.
Defined.

End MoreRuns.
